(** * NAD receiver integration: protocol client, coordinator, volume mapping

    A shallow embedding of
      - custom_components/nad_simple/client.py   (module [Client]),
      - custom_components/nad-simple/__init__.py (module [Coordinator]),
      - custom_components/nad_simple/media_player.py (module [MediaPlayer]).

    Conventions.
      - A Python [str] is a [string]; it stands for the UTF-8 encoding of the
        text, so [str.encode("utf-8")] is the identity and concatenation is
        [+:+].
      - Coroutines are programs over an explicit object state and a trace of
        the calls made to collaborators (transport, event loop, logger at INFO
        level, callbacks).  What an awaited transport operation does is decided
        by an environment [env], which sees the trace so far.
      - Python exceptions are values of [exn]; [asyncio.CancelledError] derives
        from [BaseException], so an [except Exception] clause lets it through.
      - A call of one coroutine runs without another task changing the object
        in between; what the other tasks do (the listen loop reading the
        socket, timers firing) is applied at the suspension points where the
        model says so. *)

From Stdlib Require Import String Ascii List ZArith QArith Qabs Qround Lia.
From Stdlib Require Import DecimalString.
From Stdlib Require DecimalNat DecimalPos DecimalZ.
From Stdlib Require Import Lqa.
From stdpp Require Import base option list gmap strings sorting.

Close Scope Q_scope.

(** ** Exceptions, results, traces *)

Inductive exn :=
| NADClientError (msg : string)   (* client.py:13 *)
| OSError                         (* also ConnectionRefusedError, its subclass *)
| AttributeError                  (* attribute access on None *)
| OtherException                  (* any other subclass of Exception *)
| CancelledError.                 (* asyncio.CancelledError: a BaseException *)

(** [except Exception] *)
Definition is_Exception (e : exn) : bool :=
  match e with CancelledError => false | _ => true end.

(** [except NADClientError] *)
Definition is_NADClientError (e : exn) : bool :=
  match e with NADClientError _ => true | _ => false end.

(** [except (ConnectionRefusedError, OSError)] *)
Definition is_OSError (e : exn) : bool :=
  match e with OSError => true | _ => false end.

(** [except asyncio.CancelledError] *)
Definition is_CancelledError (e : exn) : bool :=
  match e with CancelledError => true | _ => false end.

Inductive result (A : Type) :=
| Return (a : A)
| Raise (e : exn).
Arguments Return {A} a.
Arguments Raise {A} e.

(** A stream pair returned by [open_connection]; numbered by the position of
    the opening call in the trace. *)
Inductive handle := Handle (n : nat).

(** A registered update callback of the coordinator. *)
Definition listener := nat.

Inductive event :=
| EvOpen (r : option exn)                    (* await open_connection(...) *)
| EvWrite (data : string) (r : option exn)   (* writer.write(data); await writer.drain() *)
| EvClose (h : handle) (r : option exn)      (* writer.close(); await writer.wait_closed() *)
| EvCancelListen                             (* listen_task.cancel(); await listen_task *)
| EvStartListen                              (* asyncio.create_task(self._listen_loop()) *)
| EvReconnectCallback (r : option exn)       (* self._reconnect_callback() *)
| EvLog (msg : string)                       (* _LOGGER.info(msg, ...) *)
| EvSleep (ms : nat)                         (* await asyncio.sleep(ms / 1000) *)
| EvUpdateCallback (l : listener) (seen : gmap string string).
                                             (* update_callback(), with the cache it can read *)

Definition trace := list event.

(** What the outside world does: the outcome of each awaited transport
    operation ([None]: it completes; [Some e]: it raises [e]), and the push
    messages the listen loop dispatches while a coroutine sleeps, each with the
    delay in milliseconds since the previous one. *)
Record env := {
  open_outcome : trace -> option exn;
  write_outcome : trace -> string -> option exn;
  close_outcome : trace -> option exn;
  arrivals : trace -> list (nat * (string * string));
}.

(** ** Programs: state, trace and exceptions *)

Definition prog (S A : Type) : Type := S -> trace -> result A * S * trace.

Definition ret {S A} (a : A) : prog S A := fun s t => (Return a, s, t).

Definition bind {S A B} (m : prog S A) (k : A -> prog S B) : prog S B :=
  fun s t =>
    match m s t with
    | (Return a, s', t') => k a s' t'
    | (Raise e, s', t') => (Raise e, s', t')
    end.

Definition raise {S A} (e : exn) : prog S A := fun s t => (Raise e, s, t).

Definition get {S} : prog S S := fun s t => (Return s, s, t).

Definition modify {S} (f : S -> S) : prog S unit := fun s t => (Return tt, f s, t).

Definition emit {S} (e : event) : prog S unit := fun s t => (Return tt, s, t ++ [e]).

(** [try: m  except <handles> as err: h err] *)
Definition try_except {S A} (m : prog S A) (handles : exn -> bool)
    (h : exn -> prog S A) : prog S A :=
  fun s t =>
    match m s t with
    | (Raise e, s', t') => if handles e then h e s' t' else (Raise e, s', t')
    | r => r
    end.

Declare Scope prog_scope.
Delimit Scope prog_scope with prog.
Bind Scope prog_scope with prog.
Notation "x <- m ;; k" := (bind m (fun x => k))
  (at level 100, m at next level, k at level 200, right associativity) : prog_scope.
Notation "m ;; k" := (bind m (fun _ => k))
  (at level 100, k at level 200, right associativity) : prog_scope.
Local Open Scope prog_scope.

Definition result_of {S A} (r : result A * S * trace) : result A := fst (fst r).
Definition state_of {S A} (r : result A * S * trace) : S := snd (fst r).
Definition trace_of {S A} (r : result A * S * trace) : trace := snd r.

(** ** Text helpers *)

(** [str.lower()] on the letters A-Z; no character outside ASCII lower-cases
    to a letter of "on", "off" or "yes". *)
Definition lower_ascii (a : ascii) : ascii :=
  let n := nat_of_ascii a in
  if (65 <=? n)%nat && (n <=? 90)%nat then ascii_of_nat (n + 32) else a.

Fixpoint lower (s : string) : string :=
  match s with
  | EmptyString => EmptyString
  | String a s' => String (lower_ascii a) (lower s')
  end.

(** [s.startswith(p)], returning what follows the prefix *)
Fixpoint strip_prefix (p s : string) : option string :=
  match p, s with
  | EmptyString, _ => Some s
  | String a p', String b s' => if Ascii.eqb a b then strip_prefix p' s' else None
  | String _ _, EmptyString => None
  end.

(** [s.split(sep, 1)] when [sep in s]: the text before the first occurrence of
    [sep] and the text after it; [None] when [sep] does not occur. *)
Fixpoint split_once (sep s : string) : option (string * string) :=
  match strip_prefix sep s with
  | Some rest => Some (EmptyString, rest)
  | None =>
      match s with
      | EmptyString => None
      | String c s' =>
          match split_once sep s' with
          | Some (a, b) => Some (String c a, b)
          | None => None
          end
      end
  end.

(** [sep in s] *)
Definition contains (sep s : string) : bool :=
  match split_once sep s with Some _ => true | None => false end.

Definition CR : string := String "013"%char EmptyString.
Definition LF : string := String "010"%char EmptyString.
Definition CRLF : string := CR +:+ LF.

(** [str(i)] for a non-negative integer *)
Definition str (i : nat) : string := NilZero.string_of_uint (Nat.to_uint i).

(** [ch.isspace()] for a character of ASCII: tab, line feed, vertical tab,
    form feed, carriage return, the four separators 28-31, and space. *)
Definition is_space (a : ascii) : bool :=
  let n := nat_of_ascii a in
  ((9 <=? n)%nat && (n <=? 13)%nat) || ((28 <=? n)%nat && (n <=? 32)%nat).

(** [s.lstrip()] *)
Fixpoint lstrip (s : string) : string :=
  match s with
  | EmptyString => EmptyString
  | String a s' => if is_space a then lstrip s' else s
  end.

(** [s.rstrip()] *)
Fixpoint rstrip (s : string) : string :=
  match s with
  | EmptyString => EmptyString
  | String a s' =>
      match rstrip s' with
      | EmptyString => if is_space a then EmptyString else String a EmptyString
      | r => String a r
      end
  end.

(** [s.strip()], for text whose white space is ASCII *)
Definition strip (s : string) : string := lstrip (rstrip s).

(** Text of ASCII characters only. *)
Fixpoint ascii_text (s : string) : bool :=
  match s with
  | EmptyString => true
  | String a s' => (nat_of_ascii a <? 128)%nat && ascii_text s'
  end.

(** No character of [s] is [a]. *)
Fixpoint lacks (a : ascii) (s : string) : bool :=
  match s with
  | EmptyString => true
  | String b s' => negb (Ascii.eqb a b) && lacks a s'
  end.

(** ** client.py *)

Module Client.

Inductive transport_kind := TCP | Serial.   (* NADTCPClient, NADSerialClient *)

(** An [asyncio.Task]: [done()] is false for [Running]. *)
Inductive task_status := Running | Done.

(** A callable registered by the owner, by what calling it raises. *)
Definition callback := option exn.

(** The attributes of a [NADClient] (client.py:20-28, 207-208, 322-323).  The
    message callback is left out: [_parse_message] is the only reader. *)
Record client := mkClient {
  kind : transport_kind;
  _connected : bool;
  _reconnect_callback : option callback;
  _listen_task : option task_status;
  _buffer : string;
  _reconnect_enabled : bool;
  _is_reconnecting : bool;
  _reader : option handle;
  _writer : option handle;
}.

Definition set_connected (b : bool) (c : client) : client :=
  mkClient (kind c) b (_reconnect_callback c) (_listen_task c) (_buffer c)
    (_reconnect_enabled c) (_is_reconnecting c) (_reader c) (_writer c).
Definition set_reconnect_callback (cb : option callback) (c : client) : client :=
  mkClient (kind c) (_connected c) cb (_listen_task c) (_buffer c)
    (_reconnect_enabled c) (_is_reconnecting c) (_reader c) (_writer c).
Definition set_listen_task (k : option task_status) (c : client) : client :=
  mkClient (kind c) (_connected c) (_reconnect_callback c) k (_buffer c)
    (_reconnect_enabled c) (_is_reconnecting c) (_reader c) (_writer c).
Definition set_buffer (b : string) (c : client) : client :=
  mkClient (kind c) (_connected c) (_reconnect_callback c) (_listen_task c) b
    (_reconnect_enabled c) (_is_reconnecting c) (_reader c) (_writer c).
Definition set_reconnect_enabled (b : bool) (c : client) : client :=
  mkClient (kind c) (_connected c) (_reconnect_callback c) (_listen_task c) (_buffer c)
    b (_is_reconnecting c) (_reader c) (_writer c).
Definition set_is_reconnecting (b : bool) (c : client) : client :=
  mkClient (kind c) (_connected c) (_reconnect_callback c) (_listen_task c) (_buffer c)
    (_reconnect_enabled c) b (_reader c) (_writer c).
Definition set_streams (r w : option handle) (c : client) : client :=
  mkClient (kind c) (_connected c) (_reconnect_callback c) (_listen_task c) (_buffer c)
    (_reconnect_enabled c) (_is_reconnecting c) r w.

(** [NADClient.__init__] followed by the subclass's (client.py:20-28) *)
Definition new_client (k : transport_kind) : client :=
  mkClient k false None None EmptyString true false None None.

(** The wire form of a command: [f"\r{data}\r"] (client.py:272, 395) *)
Definition wire (data : string) : string := CR +:+ data +:+ CR.

(** [cmd] as built by [send_command] (client.py:167-169) *)
Definition command_string (command operator value : string) : string :=
  let cmd := command +:+ operator in
  match value with
  | EmptyString => cmd
  | _ => cmd +:+ value
  end.

(** [_process_data]'s loop (client.py:138-149): the lines handed to
    [_parse_message], in order, and the buffer left.  Every iteration removes a
    terminator from the buffer, so its length bounds the iterations. *)
Fixpoint split_lines (fuel : nat) (buffer : string) : list string * string :=
  match fuel with
  | O => ([], buffer)
  | S fuel' =>
      if contains CR buffer || contains LF buffer then
        let cut :=
          if contains CRLF buffer then split_once CRLF buffer
          else if contains LF buffer then split_once LF buffer
          else if contains CR buffer then split_once CR buffer
          else None in
        match cut with
        | Some (line, rest) =>
            let (lines, left) := split_lines fuel' rest in (line :: lines, left)
        | None => ([], buffer)
        end
      else ([], buffer)
  end.

(** [_process_data] (client.py:133-149), returning the lines it passes to
    [_parse_message]. *)
Definition _process_data (data : string) : prog client (list string) :=
  c <- get ;;
  let buffer := _buffer c +:+ data in
  let (lines, left) := split_lines (String.length buffer) buffer in
  modify (set_buffer left) ;;
  ret lines.

(** Feeding the chunks of a stream one after the other. *)
Fixpoint feed (chunks : list string) : prog client (list string) :=
  match chunks with
  | [] => ret []
  | data :: rest =>
      lines <- _process_data data ;;
      more <- feed rest ;;
      ret (lines ++ more)
  end.

Section WithEnv.
Variable E : env.

Definition transport_open : prog client handle :=
  fun c t =>
    let r := open_outcome E t in
    (match r with None => Return (Handle (List.length t)) | Some e => Raise e end,
     c, t ++ [EvOpen r]).

Definition transport_write (data : string) : prog client unit :=
  fun c t =>
    let r := write_outcome E t data in
    (match r with None => Return tt | Some e => Raise e end, c, t ++ [EvWrite data r]).

Definition transport_close (h : handle) : prog client unit :=
  fun c t =>
    let r := close_outcome E t in
    (match r with None => Return tt | Some e => Raise e end, c, t ++ [EvClose h r]).

(** [_connect_impl] (client.py:210-216, 325-337) *)
Definition _connect_impl : prog client unit :=
  h <- transport_open ;;
  modify (set_streams (Some h) (Some h)) ;;
  c <- get ;;
  emit (EvLog match kind c with
              | TCP => "Connected to NAD receiver at %s:%s"
              | Serial => "Connected to NAD receiver on %s at %d baud"
              end).

(** [self._listen_task = asyncio.create_task(self._listen_loop())] *)
Definition create_listen_task : prog client unit :=
  emit EvStartListen ;;
  modify (set_listen_task (Some Running)).

(** Cancelling the listen task and awaiting it (client.py:61-66, 245-250);
    the [CancelledError] the await may raise is swallowed there. *)
Definition cancel_listen_task : prog client unit :=
  c <- get ;;
  match _listen_task c with
  | Some Running =>
      emit EvCancelListen ;;
      modify (set_listen_task (Some Done))
  | _ => ret tt
  end.

(** Calling the reconnect callback (client.py:77-81) *)
Definition call_reconnect_callback : prog client unit :=
  c <- get ;;
  match _reconnect_callback c with
  | Some cb =>
      try_except
        (emit (EvReconnectCallback cb) ;;
         match cb with None => ret tt | Some e => raise e end)
        is_Exception
        (fun err => ret tt)
  | None => ret tt
  end.

(** [_try_reconnect] (client.py:46-90) *)
Definition _try_reconnect : prog client bool :=
  c <- get ;;
  if _is_reconnecting c then ret false
  else
    modify (set_is_reconnecting true) ;;
    try_except
      (emit (EvLog "Attempting to reconnect to NAD receiver...") ;;
       cancel_listen_task ;;
       _connect_impl ;;
       modify (set_connected true) ;;
       emit (EvLog "Successfully reconnected to NAD receiver") ;;
       create_listen_task ;;
       call_reconnect_callback ;;
       modify (set_is_reconnecting false) ;;
       ret true)
      is_Exception
      (fun err =>
         modify (set_connected false) ;;
         modify (set_is_reconnecting false) ;;
         ret false).

(** [send_raw] (client.py:265-276, 388-399) *)
Definition send_raw (data : string) : prog client unit :=
  c <- get ;;
  if negb (_connected c) || negb (bool_decide (is_Some (_writer c))) then
    raise (NADClientError "Not connected")
  else
    try_except
      (transport_write (wire data))
      is_Exception
      (fun err => raise (NADClientError "Failed to send data")).

(** [send_command] (client.py:151-186) *)
Definition send_command (command operator value : string) : prog client unit :=
  let cmd := command_string command operator value in
  try_except
    (send_raw cmd)
    is_NADClientError
    (fun err =>
       c <- get ;;
       if negb (_connected c) && _reconnect_enabled c then
         emit (EvLog "Command failed, attempting reconnect...") ;;
         ok <- _try_reconnect ;;
         if ok : bool then send_raw cmd else raise err
       else raise err).

(** [connect] (client.py:218-232, 339-355) *)
Definition connect : prog client unit :=
  c <- get ;;
  if _connected c then ret tt
  else
    try_except
      (_connect_impl ;;
       modify (set_connected true) ;;
       create_listen_task)
      (match kind c with TCP => is_OSError | Serial => is_Exception end)
      (fun err =>
         raise (NADClientError match kind c with
                               | TCP => "Connection failed"
                               | Serial => "Serial connection failed"
                               end)).

(** [disconnect] (client.py:234-263, 357-386) *)
Definition disconnect : prog client unit :=
  c <- get ;;
  if negb (_connected c) then ret tt
  else
    modify (set_reconnect_enabled false) ;;
    cancel_listen_task ;;
    c <- get ;;
    match _writer c with
    | Some h => try_except (transport_close h) is_Exception (fun err => ret tt)
    | None => ret tt
    end ;;
    modify (set_streams None None) ;;
    modify (set_connected false) ;;
    emit (EvLog "Disconnected from NAD receiver").

End WithEnv.

(** What one [await self._reader.read(4096)] of the listen loop yields. *)
Inductive read_outcome :=
| ReadData (text : string)   (* a non-empty chunk, decoded *)
| ReadEOF                    (* b"": the peer closed the connection *)
| ReadRaises (e : exn).

(** One iteration of [_listen_loop] (client.py:278-306, 401-429), returning the
    lines passed to [_parse_message].  Leaving the loop ends the task. *)
Definition _listen_loop_step (r : read_outcome) : prog client (list string) :=
  c <- get ;;
  if _connected c && bool_decide (is_Some (_reader c)) then
    match r with
    | ReadData text => _process_data text
    | ReadEOF =>
        modify (set_connected false) ;;
        modify (set_listen_task (Some Done)) ;;
        ret []
    | ReadRaises e =>
        (if is_CancelledError e then ret tt
         else if is_Exception e then modify (set_connected false)
         else ret tt) ;;
        modify (set_listen_task (Some Done)) ;;
        ret []
    end
  else
    modify (set_listen_task (Some Done)) ;;
    ret [].

(** [_parse_message] (client.py:109-131).  [callback] is [self._callback]:
    the callable the owner registered through [set_callback], if any, as a
    program over the owner's state. *)
Definition _parse_message {S : Type} (callback : option (string -> string -> prog S unit))
    (line : string) : prog S unit :=
  let line := strip line in
  match line with
  | EmptyString => ret tt
  | _ =>
      if contains "=" line then
        match split_once "=" line with
        | Some (key, value) =>
            match callback with
            | Some cb => try_except (cb key value) is_Exception (fun err => ret tt)
            | None => ret tt
            end
        | None => ret tt
        end
      else ret tt
  end.

(** The calls [self._parse_message(line)] of [_process_data], one per line. *)
Fixpoint parse_lines {S : Type} (callback : option (string -> string -> prog S unit))
    (lines : list string) : prog S unit :=
  match lines with
  | [] => ret tt
  | line :: rest => _parse_message callback line ;; parse_lines callback rest
  end.

End Client.

(** ** __init__.py *)

Module Coordinator.

(** The members of [MediaPlayerState] the coordinator assigns. *)
Inductive MediaPlayerState := ON | OFF.

(** A [_debounced_notify] task of the event loop: asleep with so many
    milliseconds left, finished, or cancelled. *)
Inductive task := Sleeping (remaining : nat) | Finished | Cancelled.

(** [task.done()] *)
Definition done (k : task) : bool :=
  match k with Sleeping _ => false | _ => true end.

(** The attributes of a [NADReceiverCoordinator] (__init__.py:47-57) that the
    modelled methods use.  [hass] holds the tasks created through
    [hass.async_create_task], in creation order; a task is named by its
    position there. *)
Record coordinator := mkCoordinator {
  client : option Client.client;
  sources : gmap nat string;
  data : gmap string string;
  power_state : option MediaPlayerState;
  _listeners : list listener;
  _update_debounce_task : option nat;
  hass : list task;
}.

Definition set_client (c : option Client.client) (co : coordinator) : coordinator :=
  mkCoordinator c (sources co) (data co) (power_state co) (_listeners co)
    (_update_debounce_task co) (hass co).
Definition set_sources (s : gmap nat string) (co : coordinator) : coordinator :=
  mkCoordinator (client co) s (data co) (power_state co) (_listeners co)
    (_update_debounce_task co) (hass co).
Definition set_data (d : gmap string string) (co : coordinator) : coordinator :=
  mkCoordinator (client co) (sources co) d (power_state co) (_listeners co)
    (_update_debounce_task co) (hass co).
Definition set_power_state (p : option MediaPlayerState) (co : coordinator) : coordinator :=
  mkCoordinator (client co) (sources co) (data co) p (_listeners co)
    (_update_debounce_task co) (hass co).
Definition set_listeners (l : list listener) (co : coordinator) : coordinator :=
  mkCoordinator (client co) (sources co) (data co) (power_state co) l
    (_update_debounce_task co) (hass co).
Definition set_update_debounce_task (k : option nat) (co : coordinator) : coordinator :=
  mkCoordinator (client co) (sources co) (data co) (power_state co) (_listeners co)
    k (hass co).
Definition set_hass (h : list task) (co : coordinator) : coordinator :=
  mkCoordinator (client co) (sources co) (data co) (power_state co) (_listeners co)
    (_update_debounce_task co) h.

(** [NADReceiverCoordinator.__init__] (__init__.py:40-67), on a fresh loop *)
Definition new_coordinator (c : option Client.client) : coordinator :=
  mkCoordinator c empty empty None [] None [].

(** The debounce window, [asyncio.sleep(0.05)] (__init__.py:192), in ms *)
Definition DEBOUNCE : nat := 50.

(** [async_add_listener] (__init__.py:212-217) *)
Definition async_add_listener (l : listener) (co : coordinator) : coordinator :=
  set_listeners (_listeners co ++ [l]) co.

(** [_handle_message] (__init__.py:162-186) *)
Definition _handle_message (key value : string) (co : coordinator) : coordinator :=
  let co := set_data (<[key := value]> (data co)) co in
  let co :=
    if decide (key = "Main.Power") then
      if decide (lower value = "on") then set_power_state (Some ON) co
      else if decide (lower value = "off") then set_power_state (Some OFF) co
      else co
    else co in
  let co :=
    match _update_debounce_task co with
    | Some id =>
        match hass co !! id with
        | Some k => if done k then co else set_hass (<[id := Cancelled]> (hass co)) co
        | None => co
        end
    | None => co
    end in
  set_update_debounce_task (Some (length (hass co)))
    (set_hass (hass co ++ [Sleeping DEBOUNCE]) co).

(** The loop of [_debounced_notify] over a copy of the listeners
    (__init__.py:195-196): one call per listener, in registration order. *)
Definition notify (co : coordinator) : list event :=
  map (fun l => EvUpdateCallback l (data co)) (_listeners co).

(** Whether a task wakes up within [dt] milliseconds. *)
Definition due (dt : nat) (k : task) : bool :=
  match k with Sleeping r => (r <=? dt)%nat | _ => false end.

Definition tick (dt : nat) (k : task) : task :=
  match k with
  | Sleeping r => if (r <=? dt)%nat then Finished else Sleeping (r - dt)
  | _ => k
  end.

(** [dt] milliseconds pass with no message: every task that wakes up runs the
    rest of [_debounced_notify] (__init__.py:188-198). *)
Definition elapse (dt : nat) (co : coordinator) (t : trace) : coordinator * trace :=
  (set_hass (map (tick dt) (hass co)) co,
   t ++ flat_map (fun _ => notify co) (filter (fun k => due dt k = true) (hass co))).

(** The event loop runs for [ms] milliseconds while the listen loop dispatches
    the messages [arr] to [_handle_message], each after the given delay; a
    message that would come later than [ms] is not part of this run. *)
Fixpoint run_for (ms : nat) (arr : list (nat * (string * string)))
    (co : coordinator) (t : trace) : coordinator * trace :=
  match arr with
  | (gap, (key, value)) :: rest =>
      if (gap <=? ms)%nat then
        let (co1, t1) := elapse gap co t in
        run_for (ms - gap) rest (_handle_message key value co1) t1
      else elapse ms co t
  | [] => elapse ms co t
  end.

(** [for x in l: body(x)] *)
Fixpoint for_each {S A : Type} (l : list A) (body : A -> prog S unit) : prog S unit :=
  match l with
  | [] => ret tt
  | x :: rest => body x ;; for_each rest body
  end.

Section WithEnv.
Variable E : env.

(** [await asyncio.sleep(ms / 1000)] inside a coroutine of the coordinator *)
Definition sleep (ms : nat) : prog coordinator unit :=
  fun co t =>
    let (co', t') := run_for ms (arrivals E t) co (t ++ [EvSleep ms]) in
    (Return tt, co', t').

(** [await self.client.<method>(...)] *)
Definition with_client {A : Type} (m : prog Client.client A) : prog coordinator A :=
  fun co t =>
    match client co with
    | None => (Raise AttributeError, co, t)
    | Some c => let '(r, c', t') := m c t in (r, set_client (Some c') co, t')
    end.

Definition source_enabled_key (i : nat) : string := "Source" +:+ str i +:+ ".Enabled".
Definition source_name_key (i : nat) : string := "Source" +:+ str i +:+ ".Name".

(** The body of the loop of [_fetch_sources] (__init__.py:148-159) *)
Definition fetch_source (i : nat) : prog coordinator unit :=
  with_client (Client.send_command E (source_enabled_key i) "?" "") ;;
  sleep 100 ;;
  co <- get ;;
  let enabled := lower (default "" (data co !! source_enabled_key i)) in
  if decide (enabled = "yes") then
    with_client (Client.send_command E (source_name_key i) "?" "") ;;
    sleep 100 ;;
    co <- get ;;
    match data co !! source_name_key i with
    | Some name =>
        if decide (name = "") then ret tt
        else modify (fun co => set_sources (<[i := name]> (sources co)) co)
    | None => ret tt
    end
  else ret tt.

(** [_fetch_sources] (__init__.py:143-159) *)
Definition _fetch_sources : prog coordinator unit :=
  modify (set_sources empty) ;;
  for_each (seq 1 12) fetch_source.

(** [operator in ("=", "+", "-")] *)
Definition changes_state (operator : string) : bool :=
  bool_decide (operator = "=" \/ operator = "+" \/ operator = "-").

(** [async_send_command] (__init__.py:225-254) *)
Definition async_send_command (command operator value : string)
    : prog coordinator (option string) :=
  co <- get ;;
  match client co with
  | None => ret None
  | Some c =>
      if negb (Client._connected c) then ret None
      else
        try_except
          (with_client (Client.send_command E command operator value) ;;
           (if changes_state operator then sleep 150 else ret tt) ;;
           co <- get ;;
           ret (data co !! command))
          is_NADClientError
          (fun err => ret None)
  end.

End WithEnv.

(** [self._listeners.remove(update_callback)]: the first occurrence goes;
    [None] stands for the [ValueError] of a callback that is not in the list. *)
Fixpoint list_remove (l : listener) (ls : list listener) : option (list listener) :=
  match ls with
  | [] => None
  | x :: rest =>
      if decide (x = l) then Some rest
      else
        match list_remove l rest with
        | Some rest' => Some (x :: rest')
        | None => None
        end
  end.

(** The function [async_add_listener] returns (__init__.py:219-223);
    [ValueError] is an [OtherException]. *)
Definition remove_listener (l : listener) : prog coordinator unit :=
  co <- get ;;
  match list_remove l (_listeners co) with
  | Some ls => modify (set_listeners ls)
  | None => raise OtherException
  end.

(** What an update callback does when it is called: it returns, it calls the
    remove function it got at registration and returns, or it raises. *)
Inductive reaction := Returns | Unregisters | Fails (e : exn).

(** [update_callback()] for one listener *)
Definition call_listener (react : listener -> reaction) (l : listener)
    : prog coordinator unit :=
  co <- get ;;
  emit (EvUpdateCallback l (data co)) ;;
  match react l with
  | Returns => ret tt
  | Unregisters => remove_listener l
  | Fails e => raise e
  end.

(** [_debounced_notify] from the moment its sleep is over (__init__.py:194-198):
    the loop over a copy of the listeners, inside the [try] whose only clause
    is [except asyncio.CancelledError: pass]. *)
Definition _debounced_notify_round (react : listener -> reaction) : prog coordinator unit :=
  try_except
    (co <- get ;;
     for_each (_listeners co) (call_listener react))
    is_CancelledError
    (fun err => ret tt).

Section MoreWithEnv.
Variable E : env.

(** [_refresh_state] (__init__.py:129-141) *)
Definition _refresh_state : prog coordinator unit :=
  try_except
    (with_client (Client.send_command E "Main.Power" "?" "") ;;
     with_client (Client.send_command E "Main.Volume" "?" "") ;;
     with_client (Client.send_command E "Main.Mute" "?" "") ;;
     with_client (Client.send_command E "Main.Source" "?" "") ;;
     sleep E 500)
    is_Exception
    (fun err => ret tt).

(** [disconnect] (__init__.py:124-127) *)
Definition disconnect : prog coordinator unit :=
  co <- get ;;
  match client co with
  | Some _ => with_client (Client.disconnect E)
  | None => ret tt
  end.

End MoreWithEnv.

(** [DOMAIN] (const.py:5) *)
Definition DOMAIN : string := "nad_simple".

(** The [DeviceInfo] that [connect] builds (__init__.py:95-105) *)
Record DeviceInfo := mkDeviceInfo {
  identifiers : gset (string * string);
  name : string;
  device_model : string;
  manufacturer : string;
  sw_version : string;
}.

(** The attributes of the coordinator that only [connect] assigns
    (__init__.py:48-50). *)
Record identity := mkIdentity {
  model : option string;
  version : option string;
  device_info : option DeviceInfo;
}.

Definition set_model (m : option string) (i : identity) : identity :=
  mkIdentity m (version i) (device_info i).
Definition set_version (v : option string) (i : identity) : identity :=
  mkIdentity (model i) v (device_info i).
Definition set_device_info (d : option DeviceInfo) (i : identity) : identity :=
  mkIdentity (model i) (version i) d.

(** A method of the coordinator that leaves these attributes alone. *)
Definition on_coordinator {A : Type} (m : prog coordinator A)
    : prog (coordinator * identity) A :=
  fun s t => let '(r, co', t') := m s.1 t in (r, (co', s.2), t').

Definition on_identity (f : identity -> identity) : prog (coordinator * identity) unit :=
  modify (fun s => (s.1, f s.2)).

(** [_handle_reconnect] (__init__.py:200-209) as the client sees it: it logs,
    hands [_refresh_state] to the event loop as a new task, and raises
    nothing. *)
Definition _handle_reconnect : Client.callback := None.

Section ConnectWithEnv.
Variable E : env.

(** [connect] (__init__.py:69-122).  [unique_id] is the id of the config
    entry and [serial_port] the configured port when the connection type is
    serial.  From [set_callback] on, the messages the listen loop reads reach
    [_handle_message]; they are applied while the coroutine sleeps. *)
Definition connect (unique_id : string) (serial_port : option string)
    : prog (coordinator * identity) bool :=
  s <- get ;;
  match client s.1 with
  | None => ret false
  | Some _ =>
      try_except
        (on_coordinator (with_client (Client.connect E)) ;;
         on_coordinator
           (with_client (modify (Client.set_reconnect_callback (Some _handle_reconnect)))) ;;
         on_coordinator (with_client (Client.send_command E "Main.Model" "?" "")) ;;
         on_coordinator (sleep E 300) ;;
         s <- get ;;
         let model := default "Unknown" (data s.1 !! "Main.Model") in
         on_identity (set_model (Some model)) ;;
         on_coordinator (with_client (Client.send_command E "Main.Version" "?" "")) ;;
         on_coordinator (sleep E 300) ;;
         s <- get ;;
         let version := default "Unknown" (data s.1 !! "Main.Version") in
         on_identity (set_version (Some version)) ;;
         let identifiers : gset (string * string) :=
           match serial_port with
           | Some port => {[ (DOMAIN, unique_id) ]} ∪ {[ (DOMAIN, port) ]}
           | None => {[ (DOMAIN, unique_id) ]}
           end in
         on_identity (set_device_info
                        (Some (mkDeviceInfo identifiers ("NAD " +:+ model) model "NAD" version))) ;;
         on_coordinator (_fetch_sources E) ;;
         on_coordinator (with_client (Client.send_command E "Main.Power" "?" "")) ;;
         on_coordinator (with_client (Client.send_command E "Main.Volume" "?" "")) ;;
         on_coordinator (with_client (Client.send_command E "Main.Mute" "?" "")) ;;
         on_coordinator (with_client (Client.send_command E "Main.Source" "?" "")) ;;
         on_coordinator (sleep E 500) ;;
         emit (EvLog "Connected to NAD %s") ;;
         ret true)
        is_NADClientError
        (fun err => ret false)
  end.

End ConnectWithEnv.

(** [s.replace(old, new)] for a non-empty [old]: the occurrences are found
    from the left and do not overlap.  Each one found shortens what is left,
    so the length of [s] bounds their number. *)
Fixpoint replace_from (fuel : nat) (old new s : string) : string :=
  match fuel with
  | O => s
  | S fuel' =>
      match split_once old s with
      | Some (before, rest) => before +:+ new +:+ replace_from fuel' old new rest
      | None => s
      end
  end.

Definition replace (old new s : string) : string :=
  replace_from (String.length s) old new s.

(** [_async_migrate_entity_entry] (__init__.py:264-279).  [serial_port] is
    the configured port when the connection type is serial; the result is the
    value of "new_unique_id", if any. *)
Definition _async_migrate_entity_entry (serial_port : option string)
    (config_entry_id unique_id : string) : option string :=
  match serial_port with
  | Some port =>
      match strip_prefix (port +:+ "-") unique_id with
      | Some _ => Some (replace (port +:+ "-") (config_entry_id +:+ "-") unique_id)
      | None => None
      end
  | None => None
  end.

End Coordinator.

(** ** media_player.py *)

Module MediaPlayer.

(** The two attributes of a [NAD] entity the volume mapping reads
    (media_player.py:59-64). *)
Record NAD := mkNAD {
  _min_volume : Z;
  _max_volume : Z;
}.

(** [round(x)] of Python 3: to the nearest integer, a tie to the even one. *)
Definition py_round (x : Q) : Z :=
  let f := Qfloor x in
  match Qcompare (x - inject_Z f) (1 # 2) with
  | Lt => f
  | Gt => (f + 1)%Z
  | Eq => if Z.even f then f else (f + 1)%Z
  end.

(** [calc_volume] (media_player.py:179-186), over the rationals *)
Definition calc_volume (self : NAD) (decibel : Q) : Q :=
  (Qabs (inject_Z (_min_volume self) - decibel)
   / inject_Z (Z.abs (_min_volume self - _max_volume self)))%Q.

(** [calc_db] (media_player.py:188-195), over the rationals *)
Definition calc_db (self : NAD) (volume : Q) : Z :=
  (_min_volume self
   + py_round (inject_Z (Z.abs (_min_volume self - _max_volume self)) * volume)%Q)%Z.

End MediaPlayer.

(** ** media_player.py: the entity *)

Module Entity.
Import Coordinator MediaPlayer.

(** [zone] (media_player.py:48) *)
Definition zone : string := "Main".

(** [_attr_unique_id] (media_player.py:55-57), from the coordinator's
    [unique_id] *)
Definition _attr_unique_id (unique_id : string) : string :=
  unique_id +:+ "-mediaplayer-" +:+ lower zone.


(** [s.lstrip("-")] *)
Fixpoint lstrip_minus (s : string) : string :=
  match s with
  | String a s' => if Ascii.eqb a "-" then lstrip_minus s' else s
  | EmptyString => EmptyString
  end.

(** [s.isnumeric()] for ASCII text: not empty, and decimal digits only. *)
Definition isnumeric (s : string) : bool :=
  match NilZero.uint_of_string s with
  | Some _ => true
  | None => false
  end.

(** [int(s)]; [ValueError] is an [OtherException]. *)
Definition py_int {S : Type} (s : string) : prog S nat :=
  match NilZero.uint_of_string s with
  | Some d => ret (Nat.of_uint d)
  | None => raise OtherException
  end.

(** [float(s)] for a text of "-" signs and decimal digits, which is all the
    test in front of it lets through (media_player.py:113): the integer the
    text spells, as a rational, with no sign or one; [ValueError] with more. *)
Definition py_float {S : Type} (s : string) : prog S Q :=
  match NilZero.int_of_string s with
  | Some d => ret (inject_Z (Z.of_int d))
  | None => raise OtherException
  end.

(** The attributes of a [NAD] entity that the modelled methods use
    (media_player.py:59-67, 95-124). *)
Record entity := mkEntity {
  volumes : NAD;
  _source_dict : gmap nat string;
  _reverse_mapping : gmap string nat;
  _attr_available : bool;
  _attr_state : option MediaPlayerState;
  _attr_is_volume_muted : option bool;
  _attr_volume_level : option Q;
  _attr_source : option string;
}.

Definition set_attr_available (b : bool) (self : entity) : entity :=
  mkEntity (volumes self) (_source_dict self) (_reverse_mapping self) b
    (_attr_state self) (_attr_is_volume_muted self) (_attr_volume_level self)
    (_attr_source self).
Definition set_attr_state (s : option MediaPlayerState) (self : entity) : entity :=
  mkEntity (volumes self) (_source_dict self) (_reverse_mapping self) (_attr_available self)
    s (_attr_is_volume_muted self) (_attr_volume_level self) (_attr_source self).
Definition set_attr_is_volume_muted (m : option bool) (self : entity) : entity :=
  mkEntity (volumes self) (_source_dict self) (_reverse_mapping self) (_attr_available self)
    (_attr_state self) m (_attr_volume_level self) (_attr_source self).
Definition set_attr_volume_level (v : option Q) (self : entity) : entity :=
  mkEntity (volumes self) (_source_dict self) (_reverse_mapping self) (_attr_available self)
    (_attr_state self) (_attr_is_volume_muted self) v (_attr_source self).
Definition set_attr_source (s : option string) (self : entity) : entity :=
  mkEntity (volumes self) (_source_dict self) (_reverse_mapping self) (_attr_available self)
    (_attr_state self) (_attr_is_volume_muted self) (_attr_volume_level self) s.

(** [d.items()] for the source table: [_fetch_sources] inserts the keys in
    ascending order, and that is the order a [dict] yields them in. *)
Definition by_key (a b : nat * string) : Prop := a.1 <= b.1.

#[global] Instance by_key_dec : RelDecision by_key := fun a b => decide (a.1 <= b.1).

Definition items (d : gmap nat string) : list (nat * string) :=
  merge_sort by_key (map_to_list d).

(** [{value: key for key, value in d.items()}]: a later item replaces an
    earlier one of the same name. *)
Definition reverse_mapping (d : gmap nat string) : gmap string nat :=
  foldl (fun acc kv => <[kv.2 := kv.1]> acc) empty (items d).

(** [NAD.__init__] (media_player.py:50-70); the [_attr_] values are the
    defaults of Home Assistant's entity classes. *)
Definition new_entity (co : coordinator) (min_volume max_volume : Z) : entity :=
  mkEntity (mkNAD min_volume max_volume) (sources co) (reverse_mapping (sources co))
    true None None None None.

(** [_handle_coordinator_update] (media_player.py:90-126), up to the call of
    [async_write_ha_state], which hands the attributes to Home Assistant. *)
Definition _handle_coordinator_update (co : coordinator) : prog entity unit :=
  let available :=
    match client co with
    | Some c => Client._connected c
    | None => false
    end in
  modify (set_attr_available available) ;;
  if available then
    modify (set_attr_state (Some (default OFF (power_state co)))) ;;
    match power_state co with
    | Some ON =>
        modify (set_attr_is_volume_muted
                  (Some (bool_decide
                           (lower (default "" (data co !! (zone +:+ ".Mute"))) = "on")))) ;;
        match data co !! (zone +:+ ".Volume") with
        | Some volume =>
            if isnumeric (lstrip_minus volume) then
              decibel <- py_float volume ;;
              self <- get ;;
              modify (set_attr_volume_level (Some (calc_volume (volumes self) decibel)))
            else modify (set_attr_volume_level None)
        | None => modify (set_attr_volume_level None)
        end ;;
        match data co !! (zone +:+ ".Source") with
        | Some source =>
            if negb (String.eqb source "") && isnumeric source then
              i <- py_int source ;;
              self <- get ;;
              modify (set_attr_source (_source_dict self !! i))
            else ret tt
        | None => ret tt
        end
    | _ => ret tt
    end
  else ret tt.

Section WithEnv.
Variable E : env.







(** [async_select_source] (media_player.py:157-172); [HomeAssistantError] is
    an [OtherException]. *)
Definition async_select_source (self : entity) (source : string) : prog coordinator unit :=
  source_id <-
    match _reverse_mapping self !! source with
    | Some i => ret i
    | None =>
        if isnumeric source then
          i <- py_int source ;;
          if bool_decide (is_Some (_source_dict self !! i)) then ret i
          else raise OtherException
        else raise OtherException
    end ;;
  async_send_command E (zone +:+ ".Source") "=" (str source_id) ;;
  ret tt.

End WithEnv.

End Entity.

(** ** Sample environments and objects *)

(** Every transport operation completes and the receiver stays silent. *)
Definition quiet : env :=
  {| open_outcome := fun _ => None;
     write_outcome := fun _ _ => None;
     close_outcome := fun _ => None;
     arrivals := fun _ => [] |}.

(** As [quiet], but the task is cancelled while it opens the transport. *)
Definition cancelled_open : env :=
  {| open_outcome := fun _ => Some CancelledError;
     write_outcome := fun _ _ => None;
     close_outcome := fun _ => None;
     arrivals := fun _ => [] |}.

(** As [quiet], but every write fails with an OS error. *)
Definition failing_write : env :=
  {| open_outcome := fun _ => None;
     write_outcome := fun _ _ => Some OSError;
     close_outcome := fun _ => None;
     arrivals := fun _ => [] |}.

(** As [quiet], but the transport cannot be opened. *)
Definition failing_open : env :=
  {| open_outcome := fun _ => Some OSError;
     write_outcome := fun _ _ => None;
     close_outcome := fun _ => None;
     arrivals := fun _ => [] |}.

(** A TCP client after [connect()] succeeded on an empty trace. *)
Definition connected_client : Client.client :=
  state_of (Client.connect quiet (Client.new_client Client.TCP) []).

(** The same client after its listen loop read [b""] (client.py:287-290). *)
Definition peer_closed_client : Client.client :=
  state_of (Client._listen_loop_step Client.ReadEOF connected_client []).

(** ** Reading the framer's output back *)

(** The three line terminators of the wire protocol. *)
Definition terminator (s : string) : Prop := s = CRLF \/ s = LF \/ s = CR.

(** The emitted lines, each followed by a separator, then the leftover. *)
Fixpoint interleave (lines seps : list string) (left : string) : string :=
  match lines, seps with
  | l :: lines', s :: seps' => l +:+ s +:+ interleave lines' seps' left
  | _, _ => left
  end.

(** The cut one iteration of the loop makes (client.py:140-147). *)
Definition first_cut (buffer : string) : option (string * string) :=
  if contains CRLF buffer then split_once CRLF buffer
  else if contains LF buffer then split_once LF buffer
  else split_once CR buffer.

(** All chunks of a stream, one after the other. *)
Fixpoint cat (chunks : list string) : string :=
  match chunks with
  | [] => EmptyString
  | x :: rest => x +:+ cat rest
  end.

(** ** The debounce timer, and runs of messages *)

(** No [_debounced_notify] task is asleep. *)
Definition idle (co : Coordinator.coordinator) : Prop :=
  Forall (fun k => Coordinator.done k = true) (Coordinator.hass co).

(** The newest task is asleep with [r] ms left, [_update_debounce_task] names
    it, and no other task is asleep. *)
Definition armed (r : nat) (co : Coordinator.coordinator) : Prop :=
  exists old : list Coordinator.task,
    Coordinator.hass co = old ++ [Coordinator.Sleeping r] /\
    Forall (fun k => Coordinator.done k = true) old /\
    Coordinator._update_debounce_task co = Some (length old).

(** The time a run of messages takes. *)
Fixpoint total_gap (arr : list (nat * (string * string))) : nat :=
  match arr with
  | [] => 0
  | (gap, _) :: rest => gap + total_gap rest
  end.

(** The cache after a run of messages. *)
Fixpoint store (d : gmap string string) (arr : list (nat * (string * string)))
    : gmap string string :=
  match arr with
  | [] => d
  | (_, (key, value)) :: rest => store (<[key := value]> d) rest
  end.

(** One round of update callbacks per message, each round seeing the cache as
    that message left it. *)
Fixpoint fanouts (ls : list listener) (d : gmap string string)
    (arr : list (nat * (string * string))) : list event :=
  match arr with
  | [] => []
  | (_, (key, value)) :: rest =>
      map (fun l => EvUpdateCallback l (<[key := value]> d)) ls
      ++ fanouts ls (<[key := value]> d) rest
  end.

(** The messages of [arr] that arrive within [ms] milliseconds. *)
Fixpoint delivered (ms : nat) (arr : list (nat * (string * string)))
    : list (nat * (string * string)) :=
  match arr with
  | (gap, m) :: rest =>
      if (gap <=? ms)%nat then (gap, m) :: delivered (ms - gap) rest else []
  | [] => []
  end.

(** ** Source discovery against a receiver *)

(** The bytes [send_command(key, "?")] writes. *)
Definition query (key : string) : string := Client.wire (key +:+ "?").

(** A receiver that answers a query for [key] with the value [rx] holds for
    it, [lat] milliseconds later, and stays silent when it holds none. *)
Definition reply (rx : gmap string string) (lat : nat) (key : string)
    : list (nat * (string * string)) :=
  match rx !! key with
  | Some value => [(lat, (key, value))]
  | None => []
  end.

(** Every entry of the cache [d] is the one of the initial cache [d0] or the
    one the receiver holds. *)
Definition tracks (rx d0 d : gmap string string) : Prop :=
  forall k : string, d !! k = d0 !! k \/ d !! k = (rx ∪ d0) !! k.

(** The name recorded for source [i] when the cache reads [known] at the
    moments [_fetch_sources] looks into it. *)
Definition discovered (known : gmap string string) (i : nat) : option string :=
  if decide (lower (default "" (known !! Coordinator.source_enabled_key i)) = "yes") then
    match known !! Coordinator.source_name_key i with
    | Some name => if decide (name = "") then None else Some name
    | None => None
    end
  else None.

(** The source table after looking at source [i]. *)
Definition record_source (known : gmap string string) (s : gmap nat string) (i : nat)
    : gmap nat string :=
  match discovered known i with
  | Some name => <[i := name]> s
  | None => s
  end.

(** The queries written for source [i]. *)
Definition queries (known : gmap string string) (i : nat) : list string :=
  query (Coordinator.source_enabled_key i)
  :: (if decide (lower (default "" (known !! Coordinator.source_enabled_key i)) = "yes")
      then [query (Coordinator.source_name_key i)] else []).

(** [s] without its suffix [suf] *)
Fixpoint strip_suffix (suf s : string) : option string :=
  if String.eqb s suf then Some EmptyString
  else
    match s with
    | EmptyString => None
    | String c s' =>
        match strip_suffix suf s' with
        | Some r => Some (String c r)
        | None => None
        end
    end.

(** The key a written query asks for. *)
Definition asked (data : string) : option string :=
  match strip_prefix CR data with
  | Some rest => strip_suffix ("?" +:+ CR) rest
  | None => None
  end.

(** The world of such a receiver on a transport that never fails. *)
Definition receiver (rx : gmap string string) (lat : nat) : env :=
  {| open_outcome := fun _ => None;
     write_outcome := fun _ _ => None;
     close_outcome := fun _ => None;
     arrivals := fun t =>
       match last t with
       | Some (EvWrite data None) =>
           match asked data with
           | Some key => reply rx lat key
           | None => []
           end
       | _ => []
       end |}.

(** The receiver of the example: source 3 is enabled and named, source 5 is
    disabled. *)
Definition sample_receiver : gmap string string :=
  <["Source3.Enabled" := "Yes"]>
    (<["Source3.Name" := "CD"]> (<["Source5.Enabled" := "No"]> empty)).

(** Ten volume reports, 4 ms apart. *)
Definition volume_ramp : list (nat * (string * string)) :=
  [(0, ("Main.Volume", "-50")); (4, ("Main.Volume", "-49")); (4, ("Main.Volume", "-48"));
   (4, ("Main.Volume", "-47")); (4, ("Main.Volume", "-46")); (4, ("Main.Volume", "-45"));
   (4, ("Main.Volume", "-44")); (4, ("Main.Volume", "-43")); (4, ("Main.Volume", "-42"));
   (4, ("Main.Volume", "-41"))].

(** A coordinator on the connected client, with one listener and nothing
    cached. *)
Definition fresh_coordinator : Coordinator.coordinator :=
  Coordinator.async_add_listener 7 (Coordinator.new_coordinator (Some connected_client)).

(** The same with a volume in the cache. *)
Definition warm_coordinator : Coordinator.coordinator :=
  Coordinator.set_data (<["Main.Volume" := "-50"]> empty) fresh_coordinator.

(** ** Recording what a callback receives *)

(** A message callback that appends its arguments to a list. *)
Definition record_message (key value : string) : prog (list (string * string)) unit :=
  modify (fun seen => seen ++ [(key, value)]).

(** The messages the callback receives for the given lines. *)
Definition messages (lines : list string) : list (string * string) :=
  state_of (Client.parse_lines (Some record_message) lines [] []).

(** ** The listen task *)

(** A client marked disconnected has no running listen task. *)
Definition listen_settled (c : Client.client) : Prop :=
  Client._connected c = false -> Client._listen_task c <> Some Client.Running.

(** How often a listen task was created. *)
Fixpoint listen_starts (t : trace) : nat :=
  match t with
  | [] => 0
  | EvStartListen :: t' => S (listen_starts t')
  | _ :: t' => listen_starts t'
  end.

(** How often a running listen task was cancelled. *)
Fixpoint listen_cancels (t : trace) : nat :=
  match t with
  | [] => 0
  | EvCancelListen :: t' => S (listen_cancels t')
  | _ :: t' => listen_cancels t'
  end.

(** A step from [(c, t)] to [(c', t')] that leaves the client settled, creates
    at most one listen task, and creates one while another is running only
    after cancelling that one. *)
Definition one_listen_task_step (c : Client.client) (t : trace)
    (c' : Client.client) (t' : trace) : Prop :=
  exists new : trace,
    t' = t ++ new /\
    listen_settled c' /\
    listen_starts new <= 1 /\
    (listen_starts new = 1 -> Client._listen_task c = Some Client.Running ->
     listen_cancels new = 1).

(** ** Rounds of update callbacks *)

(** The listeners a round calls: those up to and including the first one that
    raises, and what that one raises. *)
Fixpoint until_failure (react : listener -> Coordinator.reaction) (ls : list listener)
    : list listener * option exn :=
  match ls with
  | [] => ([], None)
  | l :: rest =>
      match react l with
      | Coordinator.Fails e => ([l], Some e)
      | _ => let (called, failure) := until_failure react rest in (l :: called, failure)
      end
  end.

(** Whether a listener stays registered when it is called. *)
Definition stays (react : listener -> Coordinator.reaction) (l : listener) : bool :=
  match react l with Coordinator.Unregisters => false | _ => true end.

(** ** The entity and its coordinator *)

(** Whether the coordinator's client is there and marked connected
    (media_player.py:95-98). *)
Definition reachable (co : Coordinator.coordinator) : bool :=
  match Coordinator.client co with
  | Some c => Client._connected c
  | None => false
  end.

(** A coordinator that heard the receiver report power, volume and source. *)
Definition playing_coordinator : Coordinator.coordinator :=
  Coordinator._handle_message "Main.Source" "3"
    (Coordinator._handle_message "Main.Volume" "-50"
       (Coordinator._handle_message "Main.Power" "On" fresh_coordinator)).

(** An entity with the default volume range (const.py:17-18), built when
    source 3 was known as CD. *)
Definition sample_entity : Entity.entity :=
  Entity.new_entity
    (Coordinator.set_sources (<[3 := "CD"]> empty) playing_coordinator) (-92) (-20).

(** ** From the wire to the cache *)



(** ** Observations on traces *)

(** The transport writes of a trace, oldest first, each with its outcome. *)
Fixpoint writes (t : trace) : list (string * option exn) :=
  match t with
  | [] => []
  | EvWrite d r :: t' => (d, r) :: writes t'
  | _ :: t' => writes t'
  end.

(** The number of attempts to open the transport. *)
Fixpoint opens (t : trace) : nat :=
  match t with
  | [] => 0
  | EvOpen _ :: t' => S (opens t')
  | _ :: t' => opens t'
  end.

(** How often [msg] was logged. *)
Fixpoint logged (msg : string) (t : trace) : nat :=
  match t with
  | [] => 0
  | EvLog m :: t' => (if decide (m = msg) then 1 else 0) + logged msg t'
  | _ :: t' => logged msg t'
  end.

(** The calls of update callbacks, oldest first. *)
Fixpoint updates (t : trace) : list (listener * gmap string string) :=
  match t with
  | [] => []
  | EvUpdateCallback l d :: t' => (l, d) :: updates t'
  | _ :: t' => updates t'
  end.

(** The settle delays of a trace. *)
Fixpoint sleeps (t : trace) : list nat :=
  match t with
  | [] => []
  | EvSleep ms :: t' => ms :: sleeps t'
  | _ :: t' => sleeps t'
  end.

(** The log line of client.py:178, written once per reconnect cycle that
    [send_command] starts. *)
Definition ATTEMPT : string := "Command failed, attempting reconnect...".

(** * Properties *)

Lemma writes_app (t u : trace) : writes (t ++ u) = writes t ++ writes u.
Proof.
  induction t as [|e t IH]; simpl; [reflexivity|].
  destruct e; simpl; rewrite ?IH; reflexivity.
Qed.

Lemma opens_app (t u : trace) : opens (t ++ u) = opens t + opens u.
Proof.
  induction t as [|e t IH]; simpl; [reflexivity|].
  destruct e; simpl; rewrite ?IH; reflexivity.
Qed.

Lemma logged_app (msg : string) (t u : trace) :
  logged msg (t ++ u) = logged msg t + logged msg u.
Proof.
  induction t as [|e t IH]; simpl; [reflexivity|].
  destruct e; simpl; rewrite ?IH; lia.
Qed.

Lemma updates_app (t u : trace) : updates (t ++ u) = updates t ++ updates u.
Proof.
  induction t as [|e t IH]; simpl; [reflexivity|].
  destruct e; simpl; rewrite ?IH; reflexivity.
Qed.

Lemma sleeps_app (t u : trace) : sleeps (t ++ u) = sleeps t ++ sleeps u.
Proof.
  induction t as [|e t IH]; simpl; [reflexivity|].
  destruct e; simpl; rewrite ?IH; reflexivity.
Qed.

(** ** Text *)

Lemma app_cons (a : ascii) (s u : string) : String a s +:+ u = String a (s +:+ u).
Proof. reflexivity. Qed.

Lemma app_nil_l (u : string) : "" +:+ u = u.
Proof. reflexivity. Qed.

Lemma string_app_assoc (a b c : string) : (a +:+ b) +:+ c = a +:+ b +:+ c.
Proof.
  induction a as [|x a IH]; [reflexivity|].
  rewrite !app_cons. f_equal. exact IH.
Qed.

Lemma string_app_nil_r (a : string) : a +:+ "" = a.
Proof.
  induction a as [|x a IH]; [reflexivity|].
  rewrite app_cons. f_equal. exact IH.
Qed.

Lemma string_app_length (a b : string) :
  String.length (a +:+ b) = String.length a + String.length b.
Proof.
  induction a as [|x a IH]; [reflexivity|].
  rewrite app_cons. simpl. rewrite IH. reflexivity.
Qed.

Lemma strip_prefix_spec (p s r : string) :
  strip_prefix p s = Some r -> s = p +:+ r.
Proof.
  revert s. induction p as [|a p IH]; intros s H; simpl in H.
  - injection H as ->. reflexivity.
  - destruct s as [|b s]; [discriminate|].
    destruct (Ascii.eqb a b) eqn:Hab; [|discriminate].
    apply Ascii.eqb_eq in Hab as ->.
    rewrite app_cons. f_equal. apply IH. exact H.
Qed.

Lemma strip_prefix_app (p r : string) : strip_prefix p (p +:+ r) = Some r.
Proof.
  induction p as [|a p IH]; [reflexivity|].
  rewrite app_cons. simpl. rewrite Ascii.eqb_refl. exact IH.
Qed.

(** [split_once] cuts at an occurrence of the separator. *)
Lemma split_once_spec (sep s a b : string) :
  split_once sep s = Some (a, b) -> s = a +:+ sep +:+ b.
Proof.
  revert a b. induction s as [|c s IH]; intros a b H.
  - cbn [split_once] in H. destruct (strip_prefix sep "") as [r|] eqn:Hp; [|discriminate].
    injection H as <- <-. apply strip_prefix_spec in Hp. rewrite app_nil_l. exact Hp.
  - cbn [split_once] in H. destruct (strip_prefix sep (String c s)) as [r|] eqn:Hp.
    + injection H as <- <-. apply strip_prefix_spec in Hp. rewrite app_nil_l. exact Hp.
    + destruct (split_once sep s) as [[a' b']|] eqn:Hs; [|discriminate].
      injection H as <- <-. rewrite app_cons. f_equal. apply IH. reflexivity.
Qed.

(** It cuts at the first one: no proper prefix of the text before the cut is
    followed by the separator. *)
Lemma split_once_first (sep s a b : string) :
  split_once sep s = Some (a, b) ->
  forall u v w : string, a = u +:+ v -> v <> "" -> s <> u +:+ sep +:+ w.
Proof.
  revert a b. induction s as [|c s IH]; intros a b H u v w Ha Hv Hs.
  - cbn [split_once] in H. destruct (strip_prefix sep "") as [r|] eqn:Hp; [|discriminate].
    injection H as <- <-. destruct u; [|discriminate]. rewrite app_nil_l in Ha. auto.
  - cbn [split_once] in H. destruct (strip_prefix sep (String c s)) as [r|] eqn:Hp.
    + injection H as <- <-. destruct u; [|discriminate]. rewrite app_nil_l in Ha. auto.
    + destruct (split_once sep s) as [[a' b']|] eqn:Hs'; [|discriminate].
      injection H as <- <-.
      destruct u as [|x u].
      * rewrite app_nil_l in Hs. rewrite Hs, strip_prefix_app in Hp. discriminate.
      * rewrite app_cons in Ha, Hs. injection Ha as -> Ha. injection Hs as Hs.
        exact (IH a' b' eq_refl u v w Ha Hv Hs).
Qed.

Lemma split_once_none (sep s : string) :
  split_once sep s = None -> forall u w : string, s <> u +:+ sep +:+ w.
Proof.
  induction s as [|c s IH]; intros H u w Hs.
  - cbn [split_once] in H. destruct (strip_prefix sep "") as [r|] eqn:Hp; [discriminate|].
    destruct u; [|discriminate]. rewrite app_nil_l in Hs.
    rewrite Hs, strip_prefix_app in Hp. discriminate.
  - cbn [split_once] in H. destruct (strip_prefix sep (String c s)) as [r|] eqn:Hp; [discriminate|].
    destruct (split_once sep s) as [[a' b']|] eqn:Hs'; [discriminate|].
    destruct u as [|x u].
    + rewrite app_nil_l in Hs. rewrite Hs, strip_prefix_app in Hp. discriminate.
    + rewrite app_cons in Hs. injection Hs as _ Hs. exact (IH eq_refl u w Hs).
Qed.

Lemma split_once_length (sep s a b : string) :
  split_once sep s = Some (a, b) ->
  String.length s = String.length a + String.length sep + String.length b.
Proof.
  intros H. apply split_once_spec in H. subst s.
  rewrite !string_app_length. lia.
Qed.

(** ** The framer *)

Section FramerFacts.
Import Client.

Lemma contains_true (sep s : string) :
  contains sep s = true -> exists a b, split_once sep s = Some (a, b).
Proof.
  unfold contains. destruct (split_once sep s) as [[a b]|]; [eauto|discriminate].
Qed.

Lemma contains_false (sep s : string) :
  contains sep s = false -> split_once sep s = None.
Proof.
  unfold contains. destruct (split_once sep s) as [[a b]|]; [discriminate|reflexivity].
Qed.

Lemma contains_occurs (sep s u w : string) :
  s = u +:+ sep +:+ w -> contains sep s = true.
Proof.
  intros Hs. unfold contains.
  destruct (split_once sep s) as [[a b]|] eqn:H; [reflexivity|].
  exfalso. exact (split_once_none sep s H u w Hs).
Qed.

Lemma contains_CRLF_CR (s : string) : contains CRLF s = true -> contains CR s = true.
Proof.
  intros H. apply contains_true in H as (a & b & H).
  apply split_once_spec in H.
  apply (contains_occurs CR s a (LF +:+ b)).
  rewrite H. reflexivity.
Qed.

Lemma split_lines_step (fuel : nat) (buffer : string) :
  split_lines (S fuel) buffer =
  match first_cut buffer with
  | Some (line, rest) =>
      let (lines, left) := split_lines fuel rest in (line :: lines, left)
  | None => ([], buffer)
  end.
Proof.
  unfold first_cut. cbn [split_lines].
  destruct (contains CRLF buffer) eqn:Hcrlf.
  - rewrite (contains_CRLF_CR _ Hcrlf). reflexivity.
  - destruct (contains LF buffer) eqn:Hlf.
    + rewrite orb_true_r. reflexivity.
    + rewrite orb_false_r. destruct (contains CR buffer) eqn:Hcr; [reflexivity|].
      rewrite (contains_false _ _ Hcr). reflexivity.
Qed.

(** A cut removes one terminator. *)
Lemma cut_spec (buffer line rest : string) :
  first_cut buffer = Some (line, rest) ->
  exists sep, terminator sep /\ buffer = line +:+ sep +:+ rest.
Proof.
  unfold first_cut, terminator. intros H.
  destruct (contains CRLF buffer); [|destruct (contains LF buffer)];
    apply split_once_spec in H; eauto.
Qed.

Lemma cut_none (buffer : string) :
  first_cut buffer = None -> contains CR buffer = false /\ contains LF buffer = false.
Proof.
  unfold first_cut. intros H.
  destruct (contains CRLF buffer) eqn:Hcrlf.
  { apply contains_true in Hcrlf as (a & b & Hc). congruence. }
  destruct (contains LF buffer) eqn:Hlf.
  { apply contains_true in Hlf as (a & b & Hc). congruence. }
  split; [|reflexivity]. unfold contains. rewrite H. reflexivity.
Qed.

Lemma terminator_length (sep : string) : terminator sep -> 1 <= String.length sep.
Proof. intros [->|[->| ->]]; simpl; lia. Qed.

(** The loop loses nothing: putting one terminator back after every line it
    emitted gives the buffer it started from. *)
Lemma split_lines_sound (fuel : nat) (buffer : string) (lines : list string) (left : string) :
  split_lines fuel buffer = (lines, left) ->
  exists seps : list string,
    length seps = length lines /\ Forall terminator seps /\
    buffer = interleave lines seps left.
Proof.
  revert buffer lines left.
  induction fuel as [|fuel IH]; intros buffer lines left H.
  - injection H as <- <-. exists []. repeat split; constructor.
  - rewrite split_lines_step in H.
    destruct (first_cut buffer) as [[line rest]|] eqn:Hcut.
    + destruct (split_lines fuel rest) as [lines' left'] eqn:Hrec.
      injection H as <- <-.
      destruct (IH rest lines' left' Hrec) as (seps & Hlen & Hall & Hrest).
      destruct (cut_spec _ _ _ Hcut) as (sep & Hsep & Hbuf).
      exists (sep :: seps). simpl. repeat split.
      * rewrite Hlen. reflexivity.
      * constructor; assumption.
      * rewrite Hbuf, Hrest. reflexivity.
    + injection H as <- <-. exists []. repeat split; constructor.
Qed.

(** With the buffer's length as fuel the loop has come to its end: no
    terminator is left. *)
Lemma split_lines_done (fuel : nat) (buffer : string) :
  String.length buffer <= fuel ->
  contains CR (snd (split_lines fuel buffer)) = false /\
  contains LF (snd (split_lines fuel buffer)) = false.
Proof.
  revert buffer. induction fuel as [|fuel IH]; intros buffer Hlen.
  - destruct buffer; [|simpl in Hlen; lia]. split; reflexivity.
  - rewrite split_lines_step.
    destruct (first_cut buffer) as [[line rest]|] eqn:Hcut.
    + destruct (cut_spec _ _ _ Hcut) as (sep & Hsep & Hbuf).
      assert (String.length rest <= fuel) as Hrest.
      { apply terminator_length in Hsep. rewrite Hbuf in Hlen.
        rewrite !string_app_length in Hlen. lia. }
      specialize (IH rest Hrest).
      destruct (split_lines fuel rest) as [lines' left']. exact IH.
    + apply cut_none in Hcut. exact Hcut.
Qed.

Lemma interleave_app (l1 l2 s1 s2 : list string) (left : string) :
  length s1 = length l1 ->
  interleave (l1 ++ l2) (s1 ++ s2) left = interleave l1 s1 (interleave l2 s2 left).
Proof.
  revert s1. induction l1 as [|l l1 IH]; intros [|x s1] H; simpl in *; try discriminate.
  - reflexivity.
  - rewrite IH by lia. reflexivity.
Qed.

Lemma interleave_left (lines seps : list string) (left more : string) :
  length seps = length lines ->
  interleave lines seps left +:+ more = interleave lines seps (left +:+ more).
Proof.
  revert seps. induction lines as [|l lines IH]; intros [|x seps] H; simpl in *; try discriminate.
  - reflexivity.
  - rewrite !string_app_assoc. rewrite IH by lia. reflexivity.
Qed.

Lemma process_data_spec (data : string) (c : client) (t : trace) :
  exists (lines seps : list string) (left : string),
    _process_data data c t = (Return lines, set_buffer left c, t) /\
    length seps = length lines /\ Forall terminator seps /\
    _buffer c +:+ data = interleave lines seps left /\
    contains CR left = false /\ contains LF left = false.
Proof.
  unfold _process_data, bind, get, modify, ret.
  pose proof (split_lines_done (String.length (_buffer c +:+ data)) (_buffer c +:+ data)
                (Nat.le_refl _)) as Hdone.
  destruct (split_lines _ (_buffer c +:+ data)) as [lines left] eqn:Hsplit.
  destruct (split_lines_sound _ _ _ _ Hsplit) as (seps & Hlen & Hall & Hbuf).
  exists lines, seps, left. simpl in Hdone. tauto.
Qed.

(** C2.  Feed the framer any chunks, from any client state.  It returns the
    lines it handed to the parser; with one terminator (CR LF, LF or CR) put
    back after each of them and the leftover buffer appended, they spell the
    bytes received: the buffer it started with followed by all chunks, so that
    nothing is lost or doubled wherever the chunks are split.  Once a chunk was
    fed, the leftover holds no terminator.  And an iteration of the loop on a
    buffer holding CR LF cuts at the first CR LF: the line is what comes before
    it, even when a lone CR or LF comes earlier. *)
Theorem framer_preserves_stream (chunks : list string) (c : client) (t : trace) :
  (exists (lines seps : list string) (c' : client),
     feed chunks c t = (Return lines, c', t) /\
     length seps = length lines /\ Forall terminator seps /\
     _buffer c +:+ cat chunks = interleave lines seps (_buffer c') /\
     (chunks <> [] ->
      contains CR (_buffer c') = false /\ contains LF (_buffer c') = false)) /\
  (forall (fuel : nat) (buffer : string),
     contains CRLF buffer = true ->
     exists line rest : string,
       split_once CRLF buffer = Some (line, rest) /\
       buffer = line +:+ CRLF +:+ rest /\
       (forall u v w : string, line = u +:+ v -> v <> "" -> buffer <> u +:+ CRLF +:+ w) /\
       split_lines (S fuel) buffer
       = (line :: fst (split_lines fuel rest), snd (split_lines fuel rest))).
Proof.
  split.
  - revert c. induction chunks as [|data rest IH]; intros c.
    + exists [], [], c. simpl. rewrite string_app_nil_r.
      split; [reflexivity|]. split; [reflexivity|]. split; [constructor|].
      split; [reflexivity|]. congruence.
    + destruct (process_data_spec data c t)
        as (lines1 & seps1 & left1 & Hrun1 & Hlen1 & Hall1 & Hbuf1 & Hcr1 & Hlf1).
      destruct (IH (set_buffer left1 c))
        as (lines2 & seps2 & c' & Hrun2 & Hlen2 & Hall2 & Hbuf2 & Hclean2).
      exists (lines1 ++ lines2), (seps1 ++ seps2), c'.
      split; [|split; [|split; [|split]]].
      * cbn [feed]. unfold bind at 1. rewrite Hrun1.
        unfold bind at 1. rewrite Hrun2. reflexivity.
      * rewrite !length_app. lia.
      * apply Forall_app; split; assumption.
      * cbn [cat]. rewrite <- string_app_assoc, Hbuf1.
        rewrite interleave_left by exact Hlen1.
        simpl in Hbuf2. rewrite Hbuf2.
        symmetry. apply interleave_app. exact Hlen1.
      * intros _. destruct rest as [|data' rest'].
        -- simpl in Hrun2. unfold ret in Hrun2. injection Hrun2 as _ <-.
           simpl. split; assumption.
        -- apply Hclean2. discriminate.
  - intros fuel buffer Hcrlf.
    destruct (contains_true _ _ Hcrlf) as (line & rest & Hsplit).
    exists line, rest. split; [exact Hsplit|].
    split; [exact (split_once_spec _ _ _ _ Hsplit)|].
    split; [exact (split_once_first _ _ _ _ Hsplit)|].
    rewrite split_lines_step. unfold first_cut. rewrite Hcrlf, Hsplit.
    destruct (split_lines fuel rest). reflexivity.
Qed.

End FramerFacts.

(** ** The protocol client *)

Section ClientFacts.
Import Client.
Variable E : env.

(** Unfolding one call into the primitive steps. *)
Ltac unfold_client :=
  unfold send_command, send_raw, _try_reconnect, disconnect, connect,
    _connect_impl, call_reconnect_callback, cancel_listen_task, create_listen_task,
    transport_open, transport_write, transport_close,
    try_except, bind, ret, raise, get, modify, emit in *.

(** [send_raw] leaves the client as it is, and either raises before touching
    the transport or makes one write of the wire form. *)
Lemma send_raw_cases (data : string) (c : client) (t : trace) :
  (send_raw E data c t = (Raise (NADClientError "Not connected"), c, t) /\
   (_connected c = false \/ _writer c = None)) \/
  (_connected c = true /\ is_Some (_writer c) /\
   exists r, write_outcome E t (wire data) = r /\
     send_raw E data c t =
       (match r with
        | None => Return tt
        | Some e => if is_Exception e then Raise (NADClientError "Failed to send data")
                    else Raise e
        end, c, t ++ [EvWrite (wire data) r])).
Proof.
  unfold_client.
  destruct (_connected c) eqn:Hc; simpl.
  - destruct (_writer c) as [h|] eqn:Hw; simpl.
    + right. split; [reflexivity|]. split; [eauto|].
      exists (write_outcome E t (wire data)). split; [reflexivity|].
      destruct (write_outcome E t (wire data)) as [e|]; [|reflexivity].
      destruct (is_Exception e); reflexivity.
    + left. auto.
  - left. auto.
Qed.

(** Case analysis on whatever a program branches on. *)
Ltac step :=
  match goal with
  | |- context [open_outcome E ?x] => destruct (open_outcome E x) as [?e|] eqn:?
  | |- context [write_outcome E ?x ?d] => destruct (write_outcome E x d) as [?e|] eqn:?
  | |- context [close_outcome E ?x] => destruct (close_outcome E x) as [?e|] eqn:?
  | |- context [is_Exception ?e] => destruct (is_Exception e) eqn:?
  end; simpl in *.

Ltac norm_trace := rewrite <- ?app_assoc; simpl.

(** One reconnect cycle: it never writes to the transport, opens it at most
    once, and tells what it left behind. *)
Lemma try_reconnect_cycle (c : client) (t : trace) :
  exists (r : result bool) (c' : client) (cycle : trace),
    _try_reconnect E c t = (r, c', t ++ cycle) /\
    writes cycle = [] /\ logged ATTEMPT cycle = 0 /\ opens cycle <= 1 /\
    _reconnect_enabled c' = _reconnect_enabled c /\
    (_is_reconnecting c = true -> r = Return false /\ c' = c /\ cycle = []) /\
    (r = Return true ->
       _connected c' = true /\ is_Some (_writer c') /\ _is_reconnecting c' = false /\
       opens cycle = 1) /\
    (r = Return false -> _is_reconnecting c = false ->
       _connected c' = false /\ _is_reconnecting c' = false) /\
    (forall e, r = Raise e -> is_Exception e = false /\ _is_reconnecting c' = true).
Proof.
  destruct c as [k conn cb lt buf en rec rd wr].
  unfold_client; simpl.
  destruct rec; simpl.
  { exists (Return false), (mkClient k conn cb lt buf en true rd wr), [].
    rewrite app_nil_r. repeat split; try intros; try discriminate; auto. }
  destruct lt as [[|]|], cb as [[e|]|], k; simpl;
  repeat step; norm_trace;
    (eexists _, _, _; split; [reflexivity|]);
    simpl; repeat split; try intros; try discriminate; try lia; eauto;
    try congruence.
Qed.

Lemma wire_command_string (command operator value : string) :
  wire (command_string command operator value)
  = CR +:+ command +:+ operator +:+ value +:+ CR.
Proof.
  unfold wire, command_string.
  destruct value as [|x v].
  - rewrite (string_app_assoc command operator CR). reflexivity.
  - rewrite !string_app_assoc. reflexivity.
Qed.

(** [send_command] in terms of its two callees. *)
Lemma send_command_unfold (command operator value : string) (c : client) (t : trace) :
  send_command E command operator value c t =
  let cmd := command_string command operator value in
  match send_raw E cmd c t with
  | (Raise err, c1, t1) =>
      if is_NADClientError err then
        if negb (_connected c1) && _reconnect_enabled c1 then
          match _try_reconnect E c1 (t1 ++ [EvLog ATTEMPT]) with
          | (Return true, c2, t2) => send_raw E cmd c2 t2
          | (Return false, c2, t2) => (Raise err, c2, t2)
          | (Raise e, c2, t2) => (Raise e, c2, t2)
          end
        else (Raise err, c1, t1)
      else (Raise err, c1, t1)
  | r => r
  end.
Proof.
  unfold send_command, try_except, bind, get, emit, raise, ret. simpl.
  destruct (send_raw E _ c t) as [[[a|err] c1] t1]; [reflexivity|].
  destruct (is_NADClientError err); [|reflexivity].
  destruct (negb (_connected c1) && _reconnect_enabled c1); [|reflexivity].
  destruct (_try_reconnect E c1 _) as [[[[|]|e] c2] t2]; reflexivity.
Qed.

(** C1.  When the first [send_raw] of [send_command] raises a client error:
    if the client is marked disconnected and reconnect is enabled, one
    reconnect cycle runs (announced once in the log; it writes nothing and
    opens the transport at most once) and then, if it returned true, the wire
    form of the command is written once more, after the cycle, and the call
    ends as that write ends; if it returned false the error of the first send
    is raised and nothing is written.  If the client is marked connected or
    reconnect is disabled, that error is raised at once: the client and the
    trace are as the first send left them. *)
Theorem send_command_retry_once (command operator value msg : string)
    (c c1 : client) (t t1 : trace) :
  let cmd := command_string command operator value in
  let out := send_command E command operator value c t in
  send_raw E cmd c t = (Raise (NADClientError msg), c1, t1) ->
  if negb (_connected c1) && _reconnect_enabled c1 then
    exists (r : result bool) (c2 : client) (cycle : trace),
      _try_reconnect E c1 (t1 ++ [EvLog ATTEMPT])
        = (r, c2, (t1 ++ [EvLog ATTEMPT]) ++ cycle) /\
      writes cycle = [] /\ logged ATTEMPT cycle = 0 /\ opens cycle <= 1 /\
      match r with
      | Return true =>
          exists w : option exn,
            out = (match w with
                   | None => Return tt
                   | Some e => if is_Exception e
                               then Raise (NADClientError "Failed to send data")
                               else Raise e
                   end,
                   c2, t1 ++ [EvLog ATTEMPT] ++ cycle ++ [EvWrite (wire cmd) w])
      | Return false =>
          out = (Raise (NADClientError msg), c2, t1 ++ [EvLog ATTEMPT] ++ cycle)
      | Raise e =>
          out = (Raise e, c2, t1 ++ [EvLog ATTEMPT] ++ cycle)
      end
  else out = (Raise (NADClientError msg), c1, t1).
Proof.
  intros cmd out Hfirst. subst out.
  rewrite send_command_unfold. fold cmd. cbv zeta. rewrite Hfirst. simpl.
  destruct (negb (_connected c1) && _reconnect_enabled c1); [|reflexivity].
  destruct (try_reconnect_cycle c1 (t1 ++ [EvLog ATTEMPT]))
    as (r & c2 & cycle & Hrun & Hw & Hl & Ho & _ & _ & Hok & _ & _).
  exists r, c2, cycle. rewrite Hrun.
  split; [reflexivity|]. split; [exact Hw|]. split; [exact Hl|]. split; [exact Ho|].
  destruct r as [[|]|e].
  - destruct (Hok eq_refl) as (Hconn & Hwr & _ & _).
    destruct (send_raw_cases cmd c2 ((t1 ++ [EvLog ATTEMPT]) ++ cycle))
      as [[_ [Hd|Hd]]|(_ & _ & w & _ & Hsend)].
    + congruence.
    + rewrite Hd in Hwr. destruct Hwr as [? ?]. discriminate.
    + exists w. rewrite Hsend. rewrite <- !app_assoc. reflexivity.
  - rewrite <- !app_assoc. reflexivity.
  - rewrite <- !app_assoc. reflexivity.
Qed.

(** C7.  Whenever [send_command] returns normally, the events it added to
    the trace hold exactly one transport write, a completed one, and its bytes
    are a carriage return, the key, the operator, the value (nothing for an
    empty one) and a carriage return.  This holds for every operator string,
    "?", "=", "+" and "-" among them. *)
Theorem send_command_wire_form (command operator value : string)
    (c c' : client) (t t' : trace) :
  send_command E command operator value c t = (Return tt, c', t') ->
  exists new : trace,
    t' = t ++ new /\
    writes new = [(CR +:+ command +:+ operator +:+ value +:+ CR, None)].
Proof.
  rewrite send_command_unfold. cbv zeta.
  rewrite <- wire_command_string.
  set (cmd := command_string command operator value).
  destruct (send_raw_cases cmd c t) as [[Hs _]|(Hconn & _ & w & _ & Hs)]; rewrite Hs.
  - simpl.
    destruct (negb (_connected c) && _reconnect_enabled c); [|discriminate].
    destruct (try_reconnect_cycle c (t ++ [EvLog ATTEMPT]))
      as (r & c2 & cycle & Hrun & Hw & _ & _ & _ & _ & Hok & _ & _).
    rewrite Hrun. destruct r as [[|]|e]; [|discriminate..].
    destruct (Hok eq_refl) as (Hconn & Hwr & _ & _).
    destruct (send_raw_cases cmd c2 ((t ++ [EvLog ATTEMPT]) ++ cycle))
      as [[_ [Hd|Hd]]|(_ & _ & w & _ & Hsend)].
    + congruence.
    + rewrite Hd in Hwr. destruct Hwr as [? ?]. discriminate.
    + rewrite Hsend. intros Heq.
      destruct w as [e|]; [destruct (is_Exception e); discriminate|].
      injection Heq as _ <-.
      exists ([EvLog ATTEMPT] ++ cycle ++ [EvWrite (wire cmd) None]).
      split; [rewrite <- !app_assoc; reflexivity|].
      simpl. rewrite writes_app, Hw. reflexivity.
  - destruct w as [e|].
    + destruct (is_Exception e) eqn:He; simpl.
      * rewrite Hconn. simpl. discriminate.
      * destruct e; simpl in *; discriminate.
    + intros Heq. injection Heq as _ <-.
      exists [EvWrite (wire cmd) None]. split; reflexivity.
Qed.

(** The guard of [_try_reconnect] (client.py:52-53): entered with the flag
    set, it returns false and touches neither the client nor the world. *)
Lemma try_reconnect_guarded (c : client) (t : trace) :
  _is_reconnecting c = true -> _try_reconnect E c t = (Return false, c, t).
Proof.
  intros H. unfold _try_reconnect, bind, get, ret. rewrite H. reflexivity.
Qed.

(** Entered with the flag clear, a cycle that returns has cleared the flag. *)
Lemma try_reconnect_returns_cleared (c c' : client) (t t' : trace) (b : bool) :
  _is_reconnecting c = false ->
  _try_reconnect E c t = (Return b, c', t') ->
  _is_reconnecting c' = false.
Proof.
  intros Hc Hrun.
  destruct (try_reconnect_cycle c t)
    as (r & c2 & cycle & Hrun' & _ & _ & _ & _ & _ & Hok & Hno & _).
  rewrite Hrun in Hrun'. injection Hrun' as <- <- _.
  destruct b; [apply Hok; reflexivity | apply Hno; auto].
Qed.

(** A cycle that ends in an exception leaves the flag set: the exception is
    not an [Exception], so the clause of client.py:86-90 did not run. *)
Lemma try_reconnect_raises_stuck (c c' : client) (t t' : trace) (e : exn) :
  _try_reconnect E c t = (Raise e, c', t') ->
  is_Exception e = false /\ _is_reconnecting c' = true.
Proof.
  intros Hrun.
  destruct (try_reconnect_cycle c t)
    as (r & c2 & cycle & Hrun' & _ & _ & _ & _ & _ & _ & _ & Hex).
  rewrite Hrun in Hrun'. injection Hrun' as <- <- _.
  apply Hex. reflexivity.
Qed.

(** [disconnect] on a client marked disconnected returns at once
    (client.py:236-237, 359-360). *)
Lemma disconnect_marked_disconnected (c : client) (t : trace) :
  _connected c = false -> disconnect E c t = (Return tt, c, t).
Proof.
  intros H. unfold disconnect, bind, get, ret. rewrite H. reflexivity.
Qed.

(** [disconnect] on a client marked connected, when it returns: reconnect is
    disabled, the listen task is not running, the streams are released and
    the client is marked disconnected. *)
Lemma disconnect_marked_connected (c c' : client) (t t' : trace) :
  _connected c = true ->
  disconnect E c t = (Return tt, c', t') ->
  _reconnect_enabled c' = false /\ _connected c' = false /\
  _listen_task c' <> Some Running /\ _writer c' = None /\ _reader c' = None /\
  (forall h, _writer c = Some h -> exists r, In (EvClose h r) t').
Proof.
  destruct c as [k conn cb lt buf en rec rd wr]. simpl. intros ->.
  unfold_client; simpl.
  destruct lt as [[|]|], wr as [h|]; simpl; repeat step; norm_trace;
    intros Heq; try discriminate; injection Heq as <- <-; simpl;
    (repeat split; try discriminate; try reflexivity);
    intros h' Hh; try discriminate; injection Hh as <-;
    eexists; apply in_app_iff; right; simpl; eauto.
Qed.

End ClientFacts.

(** *** The client on concrete runs *)

(** A chunk boundary after a CR, and lone LFs ahead of a CR LF: the second
    line keeps them. *)
Example framer_sample :
  result_of (Client.feed ["a=1" +:+ CR; LF +:+ "b" +:+ LF +:+ "c=2" +:+ CRLF +:+ "d"]
               (Client.new_client Client.TCP) [])
  = Return ["a=1"; LF +:+ "b" +:+ LF +:+ "c=2"].
Proof. reflexivity. Qed.

Lemma send_command_retry_once_witness :
  Client.send_raw quiet (Client.command_string "Main.Power" "?" "") peer_closed_client []
  = (Raise (NADClientError "Not connected"), peer_closed_client, []) /\
  exists (r : result bool) (c2 : Client.client) (cycle : trace),
    Client._try_reconnect quiet peer_closed_client ([] ++ [EvLog ATTEMPT])
      = (r, c2, ([] ++ [EvLog ATTEMPT]) ++ cycle) /\
    writes cycle = [] /\ logged ATTEMPT cycle = 0 /\ opens cycle <= 1 /\
    match r with
    | Return true =>
        exists w : option exn,
          Client.send_command quiet "Main.Power" "?" "" peer_closed_client []
          = (match w with
             | None => Return tt
             | Some e => if is_Exception e
                         then Raise (NADClientError "Failed to send data")
                         else Raise e
             end,
             c2,
             [] ++ [EvLog ATTEMPT] ++ cycle
                ++ [EvWrite (Client.wire (Client.command_string "Main.Power" "?" "")) w])
    | Return false =>
        Client.send_command quiet "Main.Power" "?" "" peer_closed_client []
        = (Raise (NADClientError "Not connected"), c2, [] ++ [EvLog ATTEMPT] ++ cycle)
    | Raise e =>
        Client.send_command quiet "Main.Power" "?" "" peer_closed_client []
        = (Raise e, c2, [] ++ [EvLog ATTEMPT] ++ cycle)
    end.
Proof.
  split; [reflexivity|].
  exact (send_command_retry_once quiet "Main.Power" "?" "" "Not connected"
           peer_closed_client peer_closed_client [] [] eq_refl).
Defined.

Lemma send_command_wire_form_witness :
  Client.send_command quiet "Main.Volume" "=" "-50" connected_client []
  = (Return tt, connected_client, [EvWrite (CR +:+ "Main.Volume=-50" +:+ CR) None]) /\
  exists new : trace,
    [EvWrite (CR +:+ "Main.Volume=-50" +:+ CR) None] = [] ++ new /\
    writes new = [(CR +:+ "Main.Volume" +:+ "=" +:+ "-50" +:+ CR, None)].
Proof.
  split; [reflexivity|].
  exact (send_command_wire_form quiet "Main.Volume" "=" "-50"
           connected_client connected_client []
           [EvWrite (CR +:+ "Main.Volume=-50" +:+ CR) None] eq_refl).
Defined.

(** C3, on the code.  Take a client that connected and whose listen loop then
    read the end of the stream, which marks it disconnected.  [disconnect()]
    returns at its first test: nothing is closed, the client still holds its
    streams, and reconnect is still enabled; the next command that fails to
    send opens the transport again. *)
Theorem disconnect_after_peer_close :
  Client._connected peer_closed_client = false /\
  Client.disconnect quiet peer_closed_client [] = (Return tt, peer_closed_client, []) /\
  Client._reconnect_enabled peer_closed_client = true /\
  Client._writer peer_closed_client = Some (Handle 0) /\
  opens (trace_of (Client.send_command quiet "Main.Power" "?" "" peer_closed_client [])) = 1 /\
  Client._connected
    (state_of (Client.send_command quiet "Main.Power" "?" "" peer_closed_client [])) = true.
Proof. repeat split. Qed.

(** C6, on the code.  Take a client marked disconnected whose flag is clear,
    and let the task be cancelled while [_connect_impl] awaits the connection.
    [CancelledError] is not an [Exception]: it leaves [_try_reconnect] with the
    flag still set, and from then on every cycle returns false at the guard
    without opening the transport, even in a world where opening succeeds. *)
Theorem try_reconnect_cancelled_keeps_guard :
  Client._is_reconnecting peer_closed_client = false /\
  exists (c' : Client.client) (t' : trace),
    Client._try_reconnect cancelled_open peer_closed_client [] = (Raise CancelledError, c', t') /\
    Client._is_reconnecting c' = true /\
    Client._try_reconnect quiet c' t' = (Return false, c', t').
Proof. split; [reflexivity|]. eexists _, _. repeat split. Qed.

(** ** The coordinator *)

Section CoordinatorFacts.
Import Coordinator.

Lemma handle_message_data (key value : string) (co : coordinator) :
  data (_handle_message key value co) = <[key := value]> (data co).
Proof.
  unfold _handle_message. simpl.
  repeat (match goal with |- context [decide ?P] => destruct (decide P) end; simpl);
  repeat (match goal with |- context [match ?x with _ => _ end] => destruct x end; simpl);
  reflexivity.
Qed.

Lemma handle_message_power (key value : string) (co : coordinator) :
  power_state (_handle_message key value co) =
  if decide (key = "Main.Power") then
    if decide (lower value = "on") then Some ON
    else if decide (lower value = "off") then Some OFF
    else power_state co
  else power_state co.
Proof.
  unfold _handle_message. simpl.
  repeat (match goal with |- context [decide ?P] => destruct (decide P) end; simpl);
  repeat (match goal with |- context [match ?x with _ => _ end] => destruct x end; simpl);
  reflexivity.
Qed.

Lemma handle_message_frame (key value : string) (co : coordinator) :
  client (_handle_message key value co) = client co /\
  sources (_handle_message key value co) = sources co /\
  _listeners (_handle_message key value co) = _listeners co.
Proof.
  unfold _handle_message. simpl.
  repeat (match goal with |- context [decide ?P] => destruct (decide P) end; simpl);
  repeat (match goal with |- context [match ?x with _ => _ end] => destruct x end; simpl);
  auto.
Qed.

(** C4.  For every coordinator and every message [(key, value)],
    [_handle_message] returns (it is a total function: nothing is raised) a
    coordinator whose cache is the old one with [key] overwritten by [value]
    and whose power projection is ON if the key is "Main.Power" and the value
    lower-cases to "on", OFF if it lower-cases to "off", and the previous
    projection in every other case, "Standby" included. *)
Theorem handle_message_cache_and_power (key value : string) (co : coordinator) :
  data (_handle_message key value co) = <[key := value]> (data co) /\
  data (_handle_message key value co) !! key = Some value /\
  (key = "Main.Power" ->
     (lower value = "on" -> power_state (_handle_message key value co) = Some ON) /\
     (lower value = "off" -> power_state (_handle_message key value co) = Some OFF) /\
     (lower value <> "on" -> lower value <> "off" ->
      power_state (_handle_message key value co) = power_state co)) /\
  (key <> "Main.Power" -> power_state (_handle_message key value co) = power_state co) /\
  power_state (_handle_message "Main.Power" "Standby" co) = power_state co.
Proof.
  rewrite handle_message_data, !handle_message_power.
  split; [reflexivity|]. split; [apply lookup_insert_eq|].
  split; [|split].
  - intros ->. rewrite decide_True by reflexivity.
    split; [|split].
    + intros ->. reflexivity.
    + intros Hoff. rewrite Hoff. reflexivity.
    + intros Hon Hoff. rewrite !decide_False by assumption. reflexivity.
  - intros Hkey. rewrite decide_False by assumption. reflexivity.
  - reflexivity.
Qed.

(** *** The debounce timer *)

Lemma handle_message_tasks (key value : string) (co : coordinator) :
  let h :=
    match _update_debounce_task co with
    | Some id =>
        match hass co !! id with
        | Some k => if done k then hass co else <[id := Cancelled]> (hass co)
        | None => hass co
        end
    | None => hass co
    end in
  hass (_handle_message key value co) = h ++ [Sleeping DEBOUNCE] /\
  _update_debounce_task (_handle_message key value co) = Some (length h).
Proof.
  unfold _handle_message. simpl.
  repeat (match goal with |- context [decide ?P] => destruct (decide P) end; simpl);
  repeat (match goal with |- context [match ?x with _ => _ end] => destruct x end; simpl);
  auto.
Qed.

Lemma done_tasks_rest (dt : nat) (old : list task) :
  Forall (fun k => done k = true) old ->
  map (tick dt) old = old /\ filter (fun k => due dt k = true) old = [].
Proof.
  induction 1 as [|k old Hk _ [IH1 IH2]]; [split; reflexivity|].
  destruct k; try discriminate; simpl; rewrite IH1; split; try reflexivity;
    rewrite filter_cons_False by (simpl; discriminate); exact IH2.
Qed.

Lemma set_hass_same (co : coordinator) : set_hass (hass co) co = co.
Proof. destruct co; reflexivity. Qed.

Lemma handle_message_idle (key value : string) (co : coordinator) :
  idle co -> armed DEBOUNCE (_handle_message key value co).
Proof.
  intros Hidle. destruct (handle_message_tasks key value co) as [Hh Hp].
  assert (match _update_debounce_task co with
          | Some id =>
              match hass co !! id with
              | Some k => if done k then hass co else <[id := Cancelled]> (hass co)
              | None => hass co
              end
          | None => hass co
          end = hass co) as Hsame.
  { destruct (_update_debounce_task co) as [id|]; [|reflexivity].
    destruct (hass co !! id) as [k|] eqn:Hk; [|reflexivity].
    unfold idle in Hidle. rewrite Forall_lookup in Hidle.
    rewrite (Hidle id k Hk). reflexivity. }
  cbv zeta in Hh, Hp. rewrite Hsame in Hh, Hp.
  exists (hass co). auto.
Qed.

(** A message that finds the timer asleep cancels it and starts a new one. *)
Lemma handle_message_armed (key value : string) (co : coordinator) (r : nat) :
  armed r co ->
  armed DEBOUNCE (_handle_message key value co) /\
  forall id, _update_debounce_task co = Some id ->
    hass (_handle_message key value co) !! id = Some Cancelled.
Proof.
  intros (old & Hh & Hold & Hp).
  destruct (handle_message_tasks key value co) as [Hh' Hp'].
  cbv zeta in Hh', Hp'. revert Hh' Hp'.
  generalize (_handle_message key value co). intros co' Hh' Hp'.
  rewrite Hp, Hh in Hh', Hp'.
  rewrite list_lookup_middle in Hh', Hp' by reflexivity. simpl in Hh', Hp'.
  rewrite insert_app_r_alt in Hh', Hp' by lia.
  rewrite Nat.sub_diag in Hh', Hp'. simpl in Hh', Hp'.
  split.
  - exists (old ++ [Cancelled]). split; [exact Hh'|]. split; [|exact Hp'].
    apply Forall_app. split; [exact Hold|]. repeat constructor.
  - intros id Hid. rewrite Hp in Hid. injection Hid as <-.
    rewrite Hh', <- app_assoc. apply list_lookup_middle. reflexivity.
Qed.

Lemma elapse_idle (dt : nat) (co : coordinator) (t : trace) :
  idle co -> elapse dt co t = (co, t).
Proof.
  intros Hidle. unfold elapse.
  destruct (done_tasks_rest dt _ Hidle) as [-> ->].
  simpl. rewrite app_nil_r, set_hass_same. reflexivity.
Qed.

(** Before the timer is due nothing is notified. *)
Lemma elapse_armed_early (dt r : nat) (co : coordinator) (t : trace) :
  armed r co -> dt < r ->
  exists co', elapse dt co t = (co', t) /\ armed (r - dt) co' /\
    data co' = data co /\ _listeners co' = _listeners co.
Proof.
  intros (old & Hh & Hold & Hp) Hlt. unfold elapse. rewrite Hh.
  rewrite map_app, filter_app.
  destruct (done_tasks_rest dt _ Hold) as [-> ->]. simpl.
  assert ((r <=? dt) = false) as Hr by (apply Nat.leb_gt; exact Hlt).
  rewrite Hr.
  rewrite filter_cons_False by (simpl; rewrite Hr; discriminate).
  rewrite filter_nil. simpl. rewrite app_nil_r.
  eexists. split; [reflexivity|]. split; [|split; reflexivity].
  exists old. simpl. auto.
Qed.

(** When the timer is due the listeners are called once, in order. *)
Lemma elapse_armed_fire (dt r : nat) (co : coordinator) (t : trace) :
  armed r co -> r <= dt ->
  exists co', elapse dt co t = (co', t ++ notify co) /\ idle co' /\
    data co' = data co /\ _listeners co' = _listeners co.
Proof.
  intros (old & Hh & Hold & Hp) Hle. unfold elapse. rewrite Hh.
  rewrite map_app, filter_app.
  destruct (done_tasks_rest dt _ Hold) as [-> ->]. simpl.
  assert ((r <=? dt) = true) as Hr by (apply Nat.leb_le; exact Hle).
  rewrite Hr.
  rewrite filter_cons_True by (simpl; rewrite Hr; reflexivity).
  rewrite filter_nil. simpl. rewrite app_nil_r.
  eexists. split; [reflexivity|]. split; [|split; reflexivity].
  unfold idle. simpl. apply Forall_app. split; [exact Hold|]. repeat constructor.
Qed.

(** Messages that follow each other faster than the window: one round of
    callbacks, after the last message. *)
Lemma burst_armed (arr : list (nat * (string * string))) :
  forall (co : coordinator) (t : trace) (ms : nat),
    armed DEBOUNCE co ->
    Forall (fun m => fst m < DEBOUNCE) arr ->
    total_gap arr + DEBOUNCE <= ms ->
    exists co', run_for ms arr co t = (co', t ++ notify co') /\ idle co' /\
      data co' = store (data co) arr /\ _listeners co' = _listeners co.
Proof.
  induction arr as [|[gap [key value]] rest IH]; intros co t ms Harmed Hgaps Hms.
  - simpl in *. destruct (elapse_armed_fire ms DEBOUNCE co t Harmed)
      as (co' & Hrun & Hidle & Hd & Hl); [lia|].
    exists co'. split; [|auto]. rewrite Hrun. unfold notify. rewrite Hd, Hl. reflexivity.
  - inversion Hgaps as [|? ? Hgap Hrest]; subst. simpl in Hgap, Hms.
    cbn [run_for].
    assert ((gap <=? ms) = true) as -> by (apply Nat.leb_le; lia).
    destruct (elapse_armed_early gap DEBOUNCE co t Harmed Hgap)
      as (co1 & -> & Harmed1 & Hd1 & Hl1).
    destruct (handle_message_armed key value co1 _ Harmed1) as [Harmed2 _].
    destruct (IH (_handle_message key value co1) t (ms - gap) Harmed2 Hrest)
      as (co' & Hrun & Hidle & Hd & Hl); [lia|].
    exists co'. split; [exact Hrun|]. split; [exact Hidle|].
    rewrite Hd, Hl, handle_message_data, Hd1.
    destruct (handle_message_frame key value co1) as (_ & _ & ->).
    split; [reflexivity|exact Hl1].
Qed.

(** Messages farther apart than the window: the round pending from the
    message before, then one round per message. *)
Lemma spaced_armed (arr : list (nat * (string * string))) :
  forall (co : coordinator) (t : trace) (ms : nat),
    armed DEBOUNCE co ->
    Forall (fun m => DEBOUNCE < fst m) arr ->
    total_gap arr + DEBOUNCE <= ms ->
    exists co',
      run_for ms arr co t
      = (co', t ++ notify co ++ fanouts (_listeners co) (data co) arr) /\
      idle co' /\ data co' = store (data co) arr /\ _listeners co' = _listeners co.
Proof.
  induction arr as [|[gap [key value]] rest IH]; intros co t ms Harmed Hgaps Hms.
  - simpl in *. destruct (elapse_armed_fire ms DEBOUNCE co t Harmed)
      as (co' & Hrun & Hidle & Hd & Hl); [lia|].
    exists co'. rewrite app_nil_r. auto.
  - inversion Hgaps as [|? ? Hgap Hrest]; subst. simpl in Hgap, Hms.
    cbn [run_for].
    assert ((gap <=? ms) = true) as -> by (apply Nat.leb_le; lia).
    destruct (elapse_armed_fire gap DEBOUNCE co t Harmed)
      as (co1 & -> & Hidle1 & Hd1 & Hl1); [lia|].
    pose proof (handle_message_idle key value co1 Hidle1) as Harmed2.
    destruct (IH (_handle_message key value co1) (t ++ notify co) (ms - gap) Harmed2 Hrest)
      as (co' & Hrun & Hidle & Hd & Hl); [lia|].
    exists co'. rewrite Hrun, Hd, Hl. unfold notify at 2.
    rewrite handle_message_data, Hd1.
    destruct (handle_message_frame key value co1) as (_ & _ & ->).
    rewrite Hl1. cbn [fanouts store]. rewrite <- !app_assoc.
    split; [reflexivity|]. split; [exact Hidle|]. split; reflexivity.
Qed.

Lemma store_app (d : gmap string string) (arr more : list (nat * (string * string))) :
  store d (arr ++ more) = store (store d arr) more.
Proof.
  revert d. induction arr as [|[gap [key value]] rest IH]; intros d; simpl; auto.
Qed.

(** After a run of messages the cache holds the value of the last one. *)
Lemma store_last (d : gmap string string) (arr : list (nat * (string * string)))
    (gap : nat) (key value : string) :
  store d (arr ++ [(gap, (key, value))]) !! key = Some value.
Proof. rewrite store_app. simpl. apply lookup_insert_eq. Qed.

(** C5.  (1) A message that finds the task named by [_update_debounce_task]
    asleep cancels it, and then creates a new task that sleeps for the whole
    window and is the one named from now on.  (2) Start with no task asleep and
    let messages arrive, each less than the window after the one before (ten
    messages to one key, for instance), and let the loop run until the window
    after the last one is over: the update callbacks are called in one round
    only, each listener once, and what they can read is the cache with all
    messages stored, so that the key of the last message holds its value.
    (3) If instead each message arrives more than the window after the one
    before, there is one round per message, each reading the cache as that
    message left it. *)
Theorem debounce_coalesces :
  (forall (key value : string) (co : coordinator) (id r : nat),
     _update_debounce_task co = Some id ->
     hass co !! id = Some (Sleeping r) ->
     hass (_handle_message key value co) !! id = Some Cancelled /\
     length (hass (_handle_message key value co)) = S (length (hass co)) /\
     hass (_handle_message key value co) !! length (hass co) = Some (Sleeping DEBOUNCE) /\
     _update_debounce_task (_handle_message key value co) = Some (length (hass co))) /\
  (forall (co : coordinator) (t : trace) (first : nat * (string * string))
          (rest : list (nat * (string * string))) (ms : nat),
     idle co ->
     Forall (fun m => fst m < DEBOUNCE) rest ->
     total_gap (first :: rest) + DEBOUNCE <= ms ->
     exists co',
       run_for ms (first :: rest) co t
       = (co', t ++ map (fun l => EvUpdateCallback l (store (data co) (first :: rest)))
                        (_listeners co)) /\
       data co' = store (data co) (first :: rest) /\
       idle co' /\
       (forall init gap key value,
          first :: rest = init ++ [(gap, (key, value))] -> data co' !! key = Some value)) /\
  (forall (co : coordinator) (t : trace) (first : nat * (string * string))
          (rest : list (nat * (string * string))) (ms : nat),
     idle co ->
     Forall (fun m => DEBOUNCE < fst m) rest ->
     total_gap (first :: rest) + DEBOUNCE <= ms ->
     exists co',
       run_for ms (first :: rest) co t
       = (co', t ++ fanouts (_listeners co) (data co) (first :: rest)) /\
       data co' = store (data co) (first :: rest) /\
       idle co').
Proof.
  split; [|split].
  - intros key value co id r Hp Hid.
    destruct (handle_message_tasks key value co) as [Hh' Hp'].
    cbv zeta in Hh', Hp'. revert Hh' Hp'.
    generalize (_handle_message key value co). intros co' Hh' Hp'.
    rewrite Hp, Hid in Hh', Hp'. simpl in Hh', Hp'.
    rewrite length_insert in Hp'.
    assert (id < length (hass co)) as Hlt by (eapply lookup_lt_Some; exact Hid).
    rewrite Hh'. split; [|split; [|split]].
    + rewrite lookup_app_l by (rewrite length_insert; exact Hlt).
      apply list_lookup_insert_eq. exact Hlt.
    + rewrite length_app, length_insert. simpl. lia.
    + apply list_lookup_middle. rewrite length_insert. reflexivity.
    + exact Hp'.
  - intros co t [gap [key value]] rest ms Hidle Hgaps Hms. simpl in Hms.
    cbn [run_for].
    assert ((gap <=? ms) = true) as -> by (apply Nat.leb_le; lia).
    rewrite (elapse_idle gap co t Hidle).
    pose proof (handle_message_idle key value co Hidle) as Harmed.
    destruct (burst_armed rest (_handle_message key value co) t (ms - gap) Harmed Hgaps)
      as (co' & Hrun & Hidle' & Hd & Hl); [lia|].
    rewrite handle_message_data in Hd.
    destruct (handle_message_frame key value co) as (_ & _ & Hl0). rewrite Hl0 in Hl.
    exists co'. split; [|split; [exact Hd|split; [exact Hidle'|]]].
    + rewrite Hrun. unfold notify. rewrite Hd, Hl. reflexivity.
    + intros init g k v Heq. rewrite Hd. change (store (<[key:=value]> (data co)) rest)
        with (store (data co) ((gap, (key, value)) :: rest)).
      rewrite Heq. apply store_last.
  - intros co t [gap [key value]] rest ms Hidle Hgaps Hms. simpl in Hms.
    cbn [run_for].
    assert ((gap <=? ms) = true) as -> by (apply Nat.leb_le; lia).
    rewrite (elapse_idle gap co t Hidle).
    pose proof (handle_message_idle key value co Hidle) as Harmed.
    destruct (spaced_armed rest (_handle_message key value co) t (ms - gap) Harmed Hgaps)
      as (co' & Hrun & Hidle' & Hd & Hl); [lia|].
    rewrite handle_message_data in Hd, Hrun.
    destruct (handle_message_frame key value co) as (_ & _ & Hl0).
    rewrite Hl0 in Hl, Hrun.
    exists co'. split; [|split; [exact Hd|exact Hidle']].
    rewrite Hrun. unfold notify. rewrite handle_message_data, Hl0. reflexivity.
Qed.

End CoordinatorFacts.

Section CoordinatorEnvFacts.
Import Coordinator.
Variable E : env.

Lemma writes_notify (co : coordinator) : writes (notify co) = [].
Proof. unfold notify. induction (_listeners co); simpl; auto. Qed.

Lemma sleeps_notify (co : coordinator) : sleeps (notify co) = [].
Proof. unfold notify. induction (_listeners co); simpl; auto. Qed.

(** Time passing moves the timers and calls listeners, nothing else. *)
Lemma elapse_obs (dt : nat) (co : coordinator) (t : trace) :
  client (fst (elapse dt co t)) = client co /\
  sources (fst (elapse dt co t)) = sources co /\
  data (fst (elapse dt co t)) = data co /\
  writes (snd (elapse dt co t)) = writes t /\
  sleeps (snd (elapse dt co t)) = sleeps t.
Proof.
  unfold elapse. simpl. rewrite writes_app, sleeps_app.
  assert (forall l : list task,
            writes (flat_map (fun _ => notify co) l) = [] /\
            sleeps (flat_map (fun _ => notify co) l) = []) as H.
  { induction l as [|k l [IH1 IH2]]; simpl; [auto|].
    rewrite writes_app, sleeps_app, writes_notify, sleeps_notify. auto. }
  destruct (H (filter (fun k => due dt k = true) (hass co))) as [-> ->].
  rewrite !app_nil_r. auto.
Qed.

(** A stretch of the event loop stores the messages that arrive in it and
    does not touch the client, the source table, the transport or the clock
    of the sleeping coroutine. *)
Lemma run_for_obs (arr : list (nat * (string * string))) :
  forall (ms : nat) (co : coordinator) (t : trace),
    client (fst (run_for ms arr co t)) = client co /\
    sources (fst (run_for ms arr co t)) = sources co /\
    data (fst (run_for ms arr co t)) = store (data co) (delivered ms arr) /\
    writes (snd (run_for ms arr co t)) = writes t /\
    sleeps (snd (run_for ms arr co t)) = sleeps t.
Proof.
  induction arr as [|[gap [key value]] rest IH]; intros ms co t.
  - simpl. apply elapse_obs.
  - cbn [run_for delivered]. destruct (gap <=? ms).
    + pose proof (elapse_obs gap co t) as (Hc & Hs & Hd & Hw & Hsl).
      destruct (elapse gap co t) as [co1 t1]. simpl in *.
      destruct (IH (ms - gap) (_handle_message key value co1) t1)
        as (Hc' & Hs' & Hd' & Hw' & Hsl').
      destruct (handle_message_frame key value co1) as (Hc1 & Hs1 & _).
      rewrite Hc', Hs', Hd', Hw', Hsl', Hc1, Hs1, handle_message_data, Hc, Hs, Hd, Hw, Hsl.
      auto.
    + simpl. apply elapse_obs.
Qed.

Lemma sleep_obs (ms : nat) (co : coordinator) (t : trace) :
  exists co' t',
    sleep E ms co t = (Return tt, co', t') /\
    client co' = client co /\ sources co' = sources co /\
    data co' = store (data co) (delivered ms (arrivals E t)) /\
    writes t' = writes t /\ sleeps t' = sleeps t ++ [ms].
Proof.
  unfold sleep.
  pose proof (run_for_obs (arrivals E t) ms co (t ++ [EvSleep ms])) as (Hc & Hs & Hd & Hw & Hsl).
  destruct (run_for ms (arrivals E t) co (t ++ [EvSleep ms])) as [co' t'].
  simpl in *. exists co', t'.
  rewrite writes_app in Hw. rewrite sleeps_app in Hsl. simpl in Hw, Hsl.
  rewrite app_nil_r in Hw. auto 10.
Qed.

(** C9, as the code has it.  Without a client, or with one marked
    disconnected, [async_send_command] returns None and leaves the coordinator
    and the trace as they are.  Otherwise it calls the client's
    [send_command].  If that returns, it sleeps 150 ms exactly when the
    operator is "=", "+" or "-", makes no transport write of its own, and
    returns what the cache then holds for the key (None if nothing).  If it
    raises a client error, None is returned with no sleep: the trace is as
    the client left it.  Any other exception goes on to the caller. *)
Theorem async_send_command_outcome (command operator value : string)
    (co : coordinator) (t : trace) :
  (changes_state operator = true <->
   operator = "=" \/ operator = "+" \/ operator = "-") /\
  match client co with
  | None => async_send_command E command operator value co t = (Return None, co, t)
  | Some c =>
      if Client._connected c then
        forall (r : result unit) (c1 : Client.client) (t1 : trace),
          Client.send_command E command operator value c t = (r, c1, t1) ->
          match r with
          | Return _ =>
              exists (co' : coordinator) (t' : trace),
                async_send_command E command operator value co t
                = (Return (data co' !! command), co', t') /\
                client co' = Some c1 /\
                writes t' = writes t1 /\
                sleeps t' = sleeps t1 ++ (if changes_state operator then [150] else [])
          | Raise e =>
              async_send_command E command operator value co t
              = (if is_NADClientError e then Return None else Raise e,
                 set_client (Some c1) co, t1)
          end
      else async_send_command E command operator value co t = (Return None, co, t)
  end.
Proof.
  split; [unfold changes_state; apply bool_decide_eq_true|].
  unfold async_send_command, try_except, bind, with_client, ret, get. cbv beta.
  destruct (client co) as [c|] eqn:Hc; [|reflexivity].
  destruct (Client._connected c); [|reflexivity]. cbn [negb].
  intros r c1 t1 Hsend.
  rewrite Hc, Hsend.
  destruct r as [[]|e].
  - destruct (changes_state operator).
    + destruct (sleep_obs 150 (set_client (Some c1) co) t1)
        as (co' & t' & -> & Hc' & _ & _ & Hw & Hsl).
      exists co', t'. auto.
    + exists (set_client (Some c1) co), t1. rewrite app_nil_r. auto.
  - destruct (is_NADClientError e); reflexivity.
Qed.

(** *** Source discovery *)

Lemma set_client_same (co : coordinator) (c : Client.client) :
  client co = Some c -> set_client (Some c) co = co.
Proof. destruct co; simpl; intros ->; reflexivity. Qed.

(** On a connected client whose write completes, a command is one write. *)
Lemma client_send_ok (command operator value : string) (c : Client.client) (t : trace) :
  Client._connected c = true -> is_Some (Client._writer c) ->
  write_outcome E t (Client.wire (Client.command_string command operator value)) = None ->
  Client.send_command E command operator value c t
  = (Return tt, c,
     t ++ [EvWrite (Client.wire (Client.command_string command operator value)) None]).
Proof.
  intros Hconn Hwr Hw. rewrite send_command_unfold. cbv zeta.
  destruct (send_raw_cases E (Client.command_string command operator value) c t)
    as [[_ [Hd|Hd]]|(_ & _ & w & Hout & ->)].
  - congruence.
  - rewrite Hd in Hwr. destruct Hwr as [? ?]. discriminate.
  - rewrite Hw in Hout. subst w. reflexivity.
Qed.

(** One turn of the loop of [_fetch_sources] whatever arrives during the
    settle delays: the Name query is written exactly when the cache, read
    after the first delay, holds a value for Source{i}.Enabled that
    lower-cases to "yes", and the table changes only by a non-empty name read
    after the second delay. *)
Lemma fetch_source_any_arrivals (i : nat) (co : coordinator) (c : Client.client) (t : trace) :
  (forall (t : trace) (d : string), write_outcome E t d = None) ->
  client co = Some c -> Client._connected c = true -> is_Some (Client._writer c) ->
  exists co1 t1 co' t',
    sleep E 100 co (t ++ [EvWrite (query (source_enabled_key i)) None])
    = (Return tt, co1, t1) /\
    fetch_source E i co t = (Return tt, co', t') /\
    if decide (lower (default "" (data co1 !! source_enabled_key i)) = "yes") then
      sleep E 100 co1 (t1 ++ [EvWrite (query (source_name_key i)) None])
      = (Return tt, set_sources (sources co) co', t') /\
      map fst (writes t') = map fst (writes t)
        ++ [query (source_enabled_key i); query (source_name_key i)] /\
      sources co' = match data co' !! source_name_key i with
                    | Some name =>
                        if decide (name = "") then sources co
                        else <[i := name]> (sources co)
                    | None => sources co
                    end
    else
      co' = co1 /\ t' = t1 /\
      map fst (writes t') = map fst (writes t) ++ [query (source_enabled_key i)] /\
      sources co' = sources co.
Proof.
  intros Hwrite Hc Hconn Hwr.
  destruct (sleep_obs 100 co (t ++ [EvWrite (query (source_enabled_key i)) None]))
    as (co1 & t1 & Hrun1 & Hc1 & Hs1 & _ & Hw1 & _).
  rewrite Hc in Hc1. rewrite writes_app in Hw1. simpl in Hw1.
  destruct (sleep_obs 100 co1 (t1 ++ [EvWrite (query (source_name_key i)) None]))
    as (co2 & t2 & Hrun2 & Hc2 & Hs2 & _ & Hw2 & _).
  rewrite writes_app, Hw1 in Hw2. simpl in Hw2.
  assert (fetch_source E i co t
          = (co0 <- get ;;
             if decide (lower (default "" (data co0 !! source_enabled_key i)) = "yes") then
               with_client (Client.send_command E (source_name_key i) "?" "") ;;
               sleep E 100 ;;
               co0 <- get ;;
               match data co0 !! source_name_key i with
               | Some name =>
                   if decide (name = "") then ret tt
                   else modify (fun co => set_sources (<[i := name]> (sources co)) co)
               | None => ret tt
               end
             else ret tt)%prog co1 t1) as Hhead.
  { unfold fetch_source. unfold bind at 1, with_client. rewrite Hc.
    rewrite client_send_ok by auto. rewrite (set_client_same co c Hc).
    change (Client.wire (Client.command_string (source_enabled_key i) "?" ""))
      with (query (source_enabled_key i)).
    unfold bind at 1. rewrite Hrun1. reflexivity. }
  exists co1, t1. rewrite Hhead. unfold bind at 1, get. cbv beta iota.
  destruct (decide (lower (default "" (data co1 !! source_enabled_key i)) = "yes")).
  - unfold bind at 1, with_client. rewrite Hc1.
    rewrite client_send_ok by auto. rewrite (set_client_same co1 c Hc1).
    change (Client.wire (Client.command_string (source_name_key i) "?" ""))
      with (query (source_name_key i)).
    unfold bind at 1. rewrite Hrun2. unfold bind, get. cbv beta iota.
    assert (set_sources (sources co) co2 = co2) as Hsame.
    { rewrite <- Hs1, <- Hs2. destruct co2; reflexivity. }
    assert (map fst (writes t2) = map fst (writes t)
              ++ [query (source_enabled_key i); query (source_name_key i)]) as Hw.
    { rewrite Hw2, !map_app, <- app_assoc. reflexivity. }
    destruct (data co2 !! source_name_key i) as [name|] eqn:Hname.
    + destruct (decide (name = "")) as [Hempty|Hne].
      * exists co2, t2. unfold ret. rewrite Hsame, Hname, decide_True by exact Hempty.
        rewrite Hs2, Hs1. auto 10.
      * exists (set_sources (<[i := name]> (sources co2)) co2), t2. unfold modify.
        split; [exact Hrun1|]. split; [reflexivity|].
        change (set_sources (sources co) (set_sources (<[i:=name]> (sources co2)) co2))
          with (set_sources (sources co) co2).
        rewrite Hsame. split; [reflexivity|]. split; [exact Hw|].
        simpl. rewrite Hname, decide_False by exact Hne. rewrite Hs2, Hs1. reflexivity.
    + exists co2, t2. unfold ret. rewrite Hsame, Hname, Hs2, Hs1. auto 10.
  - exists co1, t1. unfold ret. rewrite Hw1, map_app. simpl. auto 10.
Qed.

Section Discovery.
Variable rx : gmap string string.
Variable lat : nat.
Variable d0 : gmap string string.
Hypothesis Hwrite : forall (t : trace) (d : string), write_outcome E t d = None.
Hypothesis Hreply :
  forall (t : trace) (key : string),
    arrivals E (t ++ [EvWrite (query key) None]) = reply rx lat key.
Hypothesis Hlat : lat <= 100.

Lemma tracks_reply (d : gmap string string) (key : string) :
  tracks rx d0 d ->
  tracks rx d0 (store d (delivered 100 (reply rx lat key))) /\
  store d (delivered 100 (reply rx lat key)) !! key = (rx ∪ d0) !! key.
Proof.
  intros Hd. unfold reply.
  destruct (rx !! key) as [v|] eqn:Hrx; cbn [delivered store].
  - assert ((lat <=? 100) = true) as -> by (apply Nat.leb_le; exact Hlat).
    cbn [delivered store].
    assert ((rx ∪ d0) !! key = Some v) as Hk by (apply lookup_union_Some_l; exact Hrx).
    split.
    + intros k. destruct (decide (key = k)) as [<-|Hne].
      * right. rewrite lookup_insert_eq, Hk. reflexivity.
      * rewrite lookup_insert_ne by exact Hne. apply Hd.
    + rewrite lookup_insert_eq, Hk. reflexivity.
  - split; [exact Hd|].
    assert ((rx ∪ d0) !! key = d0 !! key) as Hk by (apply lookup_union_r; exact Hrx).
    destruct (Hd key) as [H|H]; congruence.
Qed.

(** One query and its settle delay. *)
Lemma query_and_wait (key : string) (co : coordinator) (c : Client.client) (t : trace) :
  client co = Some c -> Client._connected c = true -> is_Some (Client._writer c) ->
  tracks rx d0 (data co) ->
  exists co' t',
    (with_client (Client.send_command E key "?" "") ;; sleep E 100)%prog co t
    = (Return tt, co', t') /\
    client co' = Some c /\ sources co' = sources co /\ tracks rx d0 (data co') /\
    data co' !! key = (rx ∪ d0) !! key /\
    writes t' = writes t ++ [(query key, None)].
Proof.
  intros Hc Hconn Hwr Hd.
  unfold bind, with_client. rewrite Hc.
  rewrite client_send_ok by auto. rewrite (set_client_same co c Hc).
  change (Client.wire (Client.command_string key "?" "")) with (query key).
  destruct (sleep_obs 100 co (t ++ [EvWrite (query key) None]))
    as (co' & t' & -> & Hc' & Hs' & Hd' & Hw' & _).
  rewrite Hreply in Hd'.
  destruct (tracks_reply (data co) key Hd) as [Htr Hk].
  exists co', t'. rewrite Hc', Hs', Hd', Hw', Hc, writes_app. simpl. auto 10.
Qed.

Lemma bind_assoc {S A B C : Type} (m : prog S A) (f : A -> prog S B)
    (g : B -> prog S C) (s : S) (t : trace) :
  bind (bind m f) g s t = bind m (fun x => bind (f x) g) s t.
Proof. unfold bind. destruct (m s t) as [[[a|e] s'] t']; reflexivity. Qed.

(** One turn of the loop of [_fetch_sources]. *)
Lemma fetch_source_spec (i : nat) (co : coordinator) (c : Client.client) (t : trace) :
  client co = Some c -> Client._connected c = true -> is_Some (Client._writer c) ->
  tracks rx d0 (data co) ->
  exists co' t',
    fetch_source E i co t = (Return tt, co', t') /\
    client co' = Some c /\ tracks rx d0 (data co') /\
    sources co' = record_source (rx ∪ d0) (sources co) i /\
    map fst (writes t') = map fst (writes t) ++ queries (rx ∪ d0) i.
Proof.
  intros Hc Hconn Hwr Hd.
  unfold fetch_source, record_source, discovered, queries.
  rewrite <- (bind_assoc (with_client _) (fun _ => sleep E 100)).
  unfold bind at 1.
  destruct (query_and_wait (source_enabled_key i) co c t Hc Hconn Hwr Hd)
    as (co1 & t1 & -> & Hc1 & Hs1 & Hd1 & Hk1 & Hw1).
  unfold bind at 1, get. cbv beta iota. rewrite Hk1.
  destruct (decide (lower (default "" ((rx ∪ d0) !! source_enabled_key i)) = "yes"))
    as [Hyes|Hno].
  - rewrite <- (bind_assoc (with_client _) (fun _ => sleep E 100)).
    unfold bind at 1.
    destruct (query_and_wait (source_name_key i) co1 c t1 Hc1 Hconn Hwr Hd1)
      as (co2 & t2 & -> & Hc2 & Hs2 & Hd2 & Hk2 & Hw2).
    unfold bind at 1, get. cbv beta iota. rewrite Hk2.
    assert (map fst (writes t2) = map fst (writes t)
              ++ [query (source_enabled_key i); query (source_name_key i)]) as Hw.
    { rewrite Hw2, Hw1, !map_app, <- app_assoc. reflexivity. }
    destruct ((rx ∪ d0) !! source_name_key i) as [name|].
    + destruct (decide (name = "")).
      * exists co2, t2. unfold ret. rewrite Hs2, Hs1. auto 10.
      * eexists _, t2. unfold modify. split; [reflexivity|].
        simpl. rewrite Hs2, Hs1. auto 10.
    + exists co2, t2. unfold ret. rewrite Hs2, Hs1. auto 10.
  - exists co1, t1. unfold ret. rewrite Hw1, map_app. simpl. auto 10.
Qed.

Lemma fetch_loop_spec (c : Client.client) (l : list nat) :
  forall (co : coordinator) (t : trace),
    client co = Some c -> Client._connected c = true -> is_Some (Client._writer c) ->
    tracks rx d0 (data co) ->
    exists co' t',
      for_each l (fetch_source E) co t = (Return tt, co', t') /\
      sources co' = foldl (record_source (rx ∪ d0)) (sources co) l /\
      map fst (writes t') = map fst (writes t) ++ flat_map (queries (rx ∪ d0)) l.
Proof.
  induction l as [|i l IH]; intros co t Hc Hconn Hwr Hd.
  - exists co, t. simpl. rewrite app_nil_r. auto.
  - cbn [for_each]. unfold bind at 1.
    destruct (fetch_source_spec i co c t Hc Hconn Hwr Hd)
      as (co1 & t1 & -> & Hc1 & Hd1 & Hs1 & Hw1).
    destruct (IH co1 t1 Hc1 Hconn Hwr Hd1) as (co' & t' & -> & Hs' & Hw').
    exists co', t'. split; [reflexivity|].
    rewrite Hs', Hs1, Hw', Hw1. cbn [foldl flat_map]. rewrite <- app_assoc. auto.
Qed.

Lemma table_lookup (known : gmap string string) (l : list nat) :
  forall (s : gmap nat string) (i : nat),
    foldl (record_source known) s l !! i
    = if decide (i ∈ l) then
        match discovered known i with Some name => Some name | None => s !! i end
      else s !! i.
Proof.
  induction l as [|x l IH]; intros s i.
  - cbn [foldl]. destruct (decide (i ∈ [])) as [Hin|_]; [|reflexivity].
    exfalso. revert Hin. apply not_elem_of_nil.
  - cbn [foldl]. rewrite IH. unfold record_source.
    destruct (decide (i ∈ l)) as [Hin|Hin].
    + rewrite decide_True by (apply elem_of_cons; auto).
      destruct (discovered known i) eqn:Hi; [reflexivity|].
      destruct (decide (x = i)) as [->|Hne].
      * rewrite Hi. reflexivity.
      * destruct (discovered known x); [rewrite lookup_insert_ne by exact Hne|]; reflexivity.
    + destruct (decide (x = i)) as [->|Hne].
      * rewrite decide_True by (apply elem_of_cons; auto).
        destruct (discovered known i); [apply lookup_insert_eq|reflexivity].
      * rewrite decide_False by (rewrite elem_of_cons; intros [?|?]; auto).
        destruct (discovered known x); [rewrite lookup_insert_ne by exact Hne|]; reflexivity.
Qed.

(** C8.  Let the client be connected on a transport whose writes complete,
    and let the receiver answer each query, within the settle delay, with the
    value it holds for the key, if any.  The cache then reads, when
    [_fetch_sources] looks at a key it has just queried, what the receiver
    holds, or else what the cache held before.  [_fetch_sources] returns; the
    queries it wrote are, for i = 1, ..., 12 in this order, the one for
    Source{i}.Enabled, followed by the one for Source{i}.Name exactly when
    the cached Enabled value lower-cases to "yes"; and the source table maps
    i to name exactly when i is one of 1..12, Source{i}.Enabled is "yes" in
    that sense, and the cache holds a non-empty name for Source{i}.Name. *)
Theorem fetch_sources_table (co : coordinator) (c : Client.client) (t : trace) :
  client co = Some c -> Client._connected c = true -> is_Some (Client._writer c) ->
  data co = d0 ->
  exists co' t',
    _fetch_sources E co t = (Return tt, co', t') /\
    map fst (writes t') = map fst (writes t) ++ flat_map (queries (rx ∪ d0)) (seq 1 12) /\
    forall (i : nat) (name : string),
      sources co' !! i = Some name <->
      1 <= i <= 12 /\
      lower (default "" ((rx ∪ d0) !! source_enabled_key i)) = "yes" /\
      (rx ∪ d0) !! source_name_key i = Some name /\ name <> "".
Proof.
  intros Hc Hconn Hwr Hd.
  unfold _fetch_sources, bind at 1, modify.
  destruct (fetch_loop_spec c (seq 1 12) (set_sources empty co) t)
    as (co' & t' & -> & Hs & Hw); auto.
  { intros k. left. simpl. rewrite Hd. reflexivity. }
  exists co', t'. split; [reflexivity|]. split; [exact Hw|].
  intros i name. rewrite Hs, table_lookup. simpl sources.
  rewrite lookup_empty.
  destruct (decide (i ∈ seq 1 12)) as [Hin|Hin]; rewrite elem_of_seq in Hin.
  - unfold discovered.
    destruct (decide (lower (default "" ((rx ∪ d0) !! source_enabled_key i)) = "yes"))
      as [Hyes|Hno].
    + destruct ((rx ∪ d0) !! source_name_key i) as [n|].
      * destruct (decide (n = "")) as [->|Hne].
        -- split; [discriminate|]. intros (_ & _ & Heq & Hne). congruence.
        -- split.
           ++ intros Heq. injection Heq as <-. repeat split; auto; lia.
           ++ intros (_ & _ & Heq & _). exact Heq.
      * split; [discriminate|]. intros (_ & _ & Heq & _). discriminate.
    + split; [discriminate|]. intros (_ & Hyes & _). contradiction.
  - split; [discriminate|]. intros (Hrange & _). exfalso. apply Hin. lia.
Qed.

End Discovery.

End CoordinatorEnvFacts.

(** ** The volume mapping *)

Section MediaPlayerFacts.
Import MediaPlayer.

Lemma py_round_integer (x : Q) (n : Z) : (x == inject_Z n)%Q -> py_round x = n.
Proof.
  intros Hx. unfold py_round.
  assert (Qfloor x = n) as Hf by (rewrite Hx; apply Qfloor_Z).
  rewrite Hf.
  assert ((x - inject_Z n == 0)%Q) as Hz by (rewrite Hx; ring).
  rewrite Hz. reflexivity.
Qed.

Lemma Qabs_inject_Z (z : Z) : Qabs (inject_Z z) = inject_Z (Z.abs z).
Proof. reflexivity. Qed.

Lemma inject_Z_sub (a b : Z) : (inject_Z a - inject_Z b == inject_Z (a - b))%Q.
Proof.
  unfold Qminus. rewrite <- inject_Z_opp, <- inject_Z_plus. reflexivity.
Qed.

(** C10.  Over the rationals, with [_min_volume < _max_volume]: for every
    integer decibel value between the two, [calc_db] undoes [calc_volume], and
    [calc_volume] sends the minimum to 0 and the maximum to 1. *)
Theorem volume_round_trip (self : NAD) (d : Z) :
  (_min_volume self < _max_volume self)%Z ->
  (_min_volume self <= d <= _max_volume self)%Z ->
  calc_db self (calc_volume self (inject_Z d)) = d /\
  (calc_volume self (inject_Z (_min_volume self)) == 0)%Q /\
  (calc_volume self (inject_Z (_max_volume self)) == 1)%Q.
Proof.
  destruct self as [lo hi]. cbn [_min_volume _max_volume]. intros Hlt [Hlo Hhi].
  unfold calc_db, calc_volume. cbn [_min_volume _max_volume].
  assert (~ (inject_Z (Z.abs (lo - hi)) == 0)%Q) as Hnz.
  { change 0%Q with (inject_Z 0). rewrite inject_Z_injective. lia. }
  split; [|split].
  - rewrite (py_round_integer _ (d - lo)); [lia|].
    rewrite Qmult_div_r by exact Hnz.
    rewrite inject_Z_sub, Qabs_inject_Z.
    replace (Z.abs (lo - d)) with (d - lo)%Z by lia. reflexivity.
  - rewrite inject_Z_sub, Qabs_inject_Z, Z.sub_diag.
    unfold Qdiv. apply Qmult_0_l.
  - rewrite inject_Z_sub, Qabs_inject_Z.
    unfold Qdiv. apply Qmult_inv_r. exact Hnz.
Qed.

End MediaPlayerFacts.

Lemma volume_round_trip_witness :
  MediaPlayer.calc_db (MediaPlayer.mkNAD (-92) (-20))
    (MediaPlayer.calc_volume (MediaPlayer.mkNAD (-92) (-20)) (inject_Z (-50))) = (-50)%Z /\
  (MediaPlayer.calc_volume (MediaPlayer.mkNAD (-92) (-20)) (inject_Z (-92)) == 0)%Q /\
  (MediaPlayer.calc_volume (MediaPlayer.mkNAD (-92) (-20)) (inject_Z (-20)) == 1)%Q.
Proof.
  apply (volume_round_trip (MediaPlayer.mkNAD (-92) (-20)) (-50)); simpl; lia.
Defined.

(** *** The coordinator on concrete runs *)

Lemma debounce_coalesces_witness :
  exists co',
    Coordinator.run_for 86 volume_ramp fresh_coordinator []
    = (co', [] ++ map (fun l => EvUpdateCallback l (store empty volume_ramp)) [7]) /\
    Coordinator.data co' !! "Main.Volume" = Some "-41".
Proof.
  destruct (proj1 (proj2 debounce_coalesces) fresh_coordinator []
              (0, ("Main.Volume", "-50")) (tail volume_ramp) 86)
    as (co' & Hrun & _ & _ & Hlast).
  - constructor.
  - repeat constructor; unfold Coordinator.DEBOUNCE; simpl; lia.
  - unfold Coordinator.DEBOUNCE. simpl. lia.
  - exists co'. split; [exact Hrun|].
    apply (Hlast (take 9 volume_ramp) 4). reflexivity.
Defined.

(** Ten reports more than the window apart: ten rounds of callbacks. *)
Example debounce_spaced_sample :
  length (updates (snd (Coordinator.run_for 1000
                          (map (fun m => (60, snd m)) volume_ramp) fresh_coordinator [])))
  = 10.
Proof. vm_compute. reflexivity. Qed.

Lemma strip_suffix_refl (suf : string) : strip_suffix suf suf = Some "".
Proof. destruct suf; simpl; rewrite ?Ascii.eqb_refl, ?String.eqb_refl; reflexivity. Qed.

Lemma strip_suffix_app (suf key : string) : strip_suffix suf (key +:+ suf) = Some key.
Proof.
  induction key as [|a key IH].
  - apply strip_suffix_refl.
  - rewrite app_cons. cbn [strip_suffix].
    assert (String.eqb (String a (key +:+ suf)) suf = false) as ->.
    { apply String.eqb_neq. intros Heq.
      apply (f_equal String.length) in Heq. simpl in Heq.
      rewrite string_app_length in Heq. lia. }
    rewrite IH. reflexivity.
Qed.

Lemma asked_query (key : string) : asked (query key) = Some key.
Proof.
  unfold asked, query, Client.wire.
  rewrite strip_prefix_app, string_app_assoc. apply strip_suffix_app.
Qed.

(** The model receiver answers as the discovery theorem asks. *)
Lemma receiver_replies (rx : gmap string string) (lat : nat) (t : trace) (key : string) :
  arrivals (receiver rx lat) (t ++ [EvWrite (query key) None]) = reply rx lat key.
Proof. simpl. rewrite last_snoc, asked_query. reflexivity. Qed.

Lemma fetch_sources_table_witness :
  exists co' t',
    Coordinator._fetch_sources (receiver sample_receiver 10) fresh_coordinator []
    = (Return tt, co', t') /\
    Coordinator.sources co' !! 3 = Some "CD" /\
    Coordinator.sources co' !! 5 = None.
Proof.
  destruct (fetch_sources_table (receiver sample_receiver 10) sample_receiver 10 empty
              (fun _ _ => eq_refl) (receiver_replies sample_receiver 10)
              ltac:(lia) fresh_coordinator connected_client [] eq_refl eq_refl
              (ex_intro _ (Handle 0) eq_refl) eq_refl)
    as (co' & t' & Hrun & _ & Htable).
  exists co', t'. split; [exact Hrun|]. split.
  - apply Htable. split; [lia|]. vm_compute. repeat split. discriminate.
  - destruct (Coordinator.sources co' !! 5) as [name|] eqn:H5; [|reflexivity].
    apply Htable in H5. destruct H5 as (_ & Hyes & _).
    vm_compute in Hyes. discriminate.
Defined.

(** The example of the claim, run: the table is exactly 3 -> CD. *)
Example fetch_sources_sample :
  Coordinator.sources
    (state_of (Coordinator._fetch_sources (receiver sample_receiver 10) fresh_coordinator []))
  = <[3 := "CD"]> empty.
Proof. vm_compute. reflexivity. Qed.

(** C9, as stated, fails here: the client is connected and the key is
    cached, the command is sent with the operator "=", but the write fails;
    what comes back is None and not the cached value, and nothing slept. *)
Lemma async_send_command_none_despite_cache :
  Coordinator.client warm_coordinator = Some connected_client /\
  Client._connected connected_client = true /\
  Coordinator.changes_state "=" = true /\
  writes (trace_of (Coordinator.async_send_command failing_write
                      "Main.Volume" "=" "-40" warm_coordinator []))
  = [(CR +:+ "Main.Volume=-40" +:+ CR, Some OSError)] /\
  sleeps (trace_of (Coordinator.async_send_command failing_write
                      "Main.Volume" "=" "-40" warm_coordinator [])) = [] /\
  Coordinator.data (state_of (Coordinator.async_send_command failing_write
                                "Main.Volume" "=" "-40" warm_coordinator []))
    !! "Main.Volume" = Some "-50" /\
  result_of (Coordinator.async_send_command failing_write
               "Main.Volume" "=" "-40" warm_coordinator [])
  <> Return (Coordinator.data
               (state_of (Coordinator.async_send_command failing_write
                            "Main.Volume" "=" "-40" warm_coordinator []))
             !! "Main.Volume").
Proof. vm_compute. repeat split; discriminate. Qed.

(** The same call on a transport that works: it sleeps once and returns the
    cached value. *)
Example async_send_command_sample :
  result_of (Coordinator.async_send_command quiet "Main.Volume" "=" "-40" warm_coordinator [])
  = Return (Some "-50") /\
  sleeps (trace_of (Coordinator.async_send_command quiet
                      "Main.Volume" "=" "-40" warm_coordinator [])) = [150].
Proof. vm_compute. split; reflexivity. Qed.

(** * Further properties *)

(** ** Parsing and dispatch of lines *)

Lemma lacks_app (c : ascii) (a b : string) :
  lacks c (a +:+ b) = lacks c a && lacks c b.
Proof.
  induction a as [|x a IH]; [reflexivity|].
  rewrite app_cons. simpl. rewrite IH, andb_assoc. reflexivity.
Qed.

(** The first occurrence of a separator that starts with a character the
    text before it lacks. *)
Lemma split_once_clean (c : ascii) (sep' pre rest : string) :
  lacks c pre = true ->
  split_once (String c sep') (pre +:+ String c sep' +:+ rest) = Some (pre, rest).
Proof.
  induction pre as [|x pre IH]; intros Hpre.
  - rewrite app_nil_l.
    destruct (String c sep' +:+ rest) eqn:Heq; cbn [split_once];
      rewrite <- Heq, strip_prefix_app; reflexivity.
  - simpl in Hpre. apply andb_true_iff in Hpre as [Hx Hpre].
    rewrite app_cons. cbn [split_once strip_prefix].
    apply negb_true_iff in Hx. rewrite Hx. rewrite IH by exact Hpre. reflexivity.
Qed.

Lemma lacks_no_split (c : ascii) (sep s : string) :
  lacks c s = true -> lacks c sep = false -> split_once sep s = None.
Proof.
  intros Hs Hsep. destruct (split_once sep s) as [[a b]|] eqn:H; [|reflexivity].
  apply split_once_spec in H. subst s. rewrite !lacks_app in Hs.
  rewrite Hsep in Hs. rewrite andb_false_r in Hs. discriminate.
Qed.

Lemma lacks_contains (c : ascii) (sep s : string) :
  lacks c s = true -> lacks c sep = false -> contains sep s = false.
Proof. intros Hs Hsep. unfold contains. rewrite (lacks_no_split c); auto. Qed.

Lemma parse_message_unfold {S : Type} (callback : option (string -> string -> prog S unit))
    (line key value : string) (s : S) (t : trace) :
  strip line = key +:+ "=" +:+ value -> lacks "=" key = true ->
  Client._parse_message callback line s t =
  match callback with
  | Some cb => try_except (cb key value) is_Exception (fun _ => ret tt) s t
  | None => (Return tt, s, t)
  end.
Proof.
  intros Hline Hkey. unfold Client._parse_message. rewrite Hline.
  assert (split_once "=" (key +:+ "=" +:+ value) = Some (key, value)) as Hsplit.
  { exact (split_once_clean "=" "" key value Hkey). }
  assert (contains "=" (key +:+ "=" +:+ value) = true) as Hin.
  { unfold contains. rewrite Hsplit. reflexivity. }
  rewrite Hin, Hsplit.
  destruct (key +:+ "=" +:+ value) eqn:Heq.
  - destruct key; discriminate.
  - destruct callback; reflexivity.
Qed.

(** X1.  [_parse_message] on a line of ASCII text: when the stripped line
    holds no "=", the callback is not called and nothing changes; when it is
    [key=value] with no "=" in [key] (the value may hold some), the callback
    is called once with [key] and [value], and an [Exception] it raises is
    swallowed; so [_parse_message] never raises an [Exception]; and without
    a callback nothing happens. *)
Theorem parse_message_dispatch {S : Type} (cb : string -> string -> prog S unit)
    (line : string) (s : S) (t : trace) :
  ascii_text line = true ->
  (contains "=" (strip line) = false ->
   Client._parse_message (Some cb) line s t = (Return tt, s, t)) /\
  (forall key value : string,
     strip line = key +:+ "=" +:+ value -> lacks "=" key = true ->
     Client._parse_message (Some cb) line s t =
     match cb key value s t with
     | (Raise e, s', t') => if is_Exception e then (Return tt, s', t') else (Raise e, s', t')
     | r => r
     end) /\
  (forall e : exn,
     result_of (Client._parse_message (Some cb) line s t) = Raise e ->
     is_Exception e = false) /\
  Client._parse_message None line s t = (Return tt, s, t).
Proof.
  intros _. split; [|split; [|split]].
  - intros Hno. unfold Client._parse_message. rewrite Hno.
    destruct (strip line); reflexivity.
  - intros key value Hline Hkey.
    rewrite (parse_message_unfold (Some cb) line key value s t Hline Hkey).
    unfold try_except, ret.
    destruct (cb key value s t) as [[[u|e] s'] t']; [reflexivity|].
    destruct (is_Exception e); reflexivity.
  - intros e. unfold Client._parse_message.
    destruct (strip line) as [|a l]; [discriminate|].
    destruct (contains "=" (String a l)); [|discriminate].
    destruct (split_once "=" (String a l)) as [[key value]|]; [|discriminate].
    unfold try_except, ret.
    destruct (cb key value s t) as [[[u|e'] s'] t']; [discriminate|].
    destruct (is_Exception e') eqn:He; [discriminate|].
    simpl. intros Heq. injection Heq as <-. exact He.
  - unfold Client._parse_message.
    destruct (strip line) as [|a l]; [reflexivity|].
    destruct (contains "=" (String a l)); [|reflexivity].
    destruct (split_once "=" (String a l)) as [[key value]|]; reflexivity.
Qed.

(** ** A line that arrives in two chunks *)

Lemma string_app_eq_app (a b x y : string) :
  a +:+ b = x +:+ y ->
  (exists m, x = a +:+ m /\ b = m +:+ y) \/ (exists m, a = x +:+ m /\ y = m +:+ b).
Proof.
  revert x. induction a as [|c a IH]; intros x H.
  - left. exists x. rewrite app_nil_l in *. auto.
  - destruct x as [|d x].
    + right. exists (String c a). rewrite app_nil_l in *. auto.
    + rewrite !app_cons in H. injection H as -> H.
      destruct (IH x H) as [(m & -> & ->)|(m & -> & ->)].
      * left. exists m. rewrite app_cons. auto.
      * right. exists m. rewrite app_cons. auto.
Qed.

Lemma split_lines_clean (fuel : nat) (buffer : string) :
  lacks "013" buffer = true -> lacks "010" buffer = true ->
  Client.split_lines fuel buffer = ([], buffer).
Proof.
  intros Hcr Hlf. destruct fuel as [|fuel]; [reflexivity|].
  rewrite split_lines_step. unfold first_cut.
  rewrite (lacks_contains "010" CRLF), (lacks_contains "010" LF) by auto.
  rewrite (lacks_no_split "013" CR) by auto. reflexivity.
Qed.

(** A whole line, clean of terminators, followed by CR LF. *)
Lemma split_lines_crlf (fuel : nat) (l : string) :
  lacks "013" l = true -> lacks "010" l = true ->
  Client.split_lines (S fuel) (l +:+ CRLF) = ([l], "").
Proof.
  intros Hcr Hlf. rewrite split_lines_step. unfold first_cut.
  pose proof (split_once_clean "013" LF l "" Hcr) as Hsplit.
  change (String "013" LF) with CRLF in Hsplit. rewrite string_app_nil_r in Hsplit.
  unfold contains at 1. rewrite Hsplit.
  rewrite (split_lines_clean fuel "") by reflexivity. reflexivity.
Qed.

(** The same line followed by CR only. *)
Lemma split_lines_cr (fuel : nat) (l : string) :
  lacks "013" l = true -> lacks "010" l = true ->
  Client.split_lines (S fuel) (l +:+ CR) = ([l], "").
Proof.
  intros Hcr Hlf. rewrite split_lines_step. unfold first_cut.
  assert (lacks "010" (l +:+ CR) = true) as Hlf'.
  { rewrite lacks_app, Hlf. reflexivity. }
  rewrite (lacks_contains "010" CRLF), (lacks_contains "010" LF) by auto.
  pose proof (split_once_clean "013" "" l "" Hcr) as Hsplit.
  change (String "013" "") with CR in Hsplit. rewrite string_app_nil_r in Hsplit.
  rewrite Hsplit.
  rewrite (split_lines_clean fuel "") by reflexivity. reflexivity.
Qed.

Lemma length_app_pos (l sep : string) :
  sep <> "" -> exists n, String.length (l +:+ sep) = S n.
Proof.
  intros Hsep. rewrite string_app_length.
  destruct sep as [|c sep]; [contradiction|]. simpl.
  exists (String.length l + String.length sep). lia.
Qed.

Lemma process_data_run (data : string) (c : Client.client) (t : trace)
    (lines : list string) (left : string) :
  Client.split_lines (String.length (Client._buffer c +:+ data)) (Client._buffer c +:+ data)
  = (lines, left) ->
  Client._process_data data c t = (Return lines, Client.set_buffer left c, t).
Proof.
  intros H. unfold Client._process_data, bind, get, modify, ret. rewrite H. reflexivity.
Qed.

Lemma messages_one (key value : string) :
  strip (key +:+ "=" +:+ value) = key +:+ "=" +:+ value -> lacks "=" key = true ->
  messages [key +:+ "=" +:+ value] = [(key, value)] /\
  messages [key +:+ "=" +:+ value; ""] = [(key, value)].
Proof.
  intros Hstrip Hkey. unfold messages, Client.parse_lines, bind.
  rewrite (parse_message_unfold (Some record_message) _ key value [] [] Hstrip Hkey).
  split; reflexivity.
Qed.

Lemma feed_two (a b : string) (c c1 c2 : Client.client) (t : trace) (l1 l2 : list string) :
  Client._process_data a c t = (Return l1, c1, t) ->
  Client._process_data b c1 t = (Return l2, c2, t) ->
  Client.feed [a; b] c t = (Return (l1 ++ l2), c2, t).
Proof.
  intros H1 H2. cbn [Client.feed]. unfold bind, ret. rewrite H1, H2.
  rewrite app_nil_r. reflexivity.
Qed.

(** X2.  Let [key=value] be ASCII text with no CR or LF, no "=" in the key and
    no white space at either end, and let the bytes [key=value CR LF] reach a
    client with an empty buffer in two chunks, cut at any place (an end
    included).  Then the callback receives exactly one message, [key] with
    [value], and the buffer is empty again. *)
Theorem two_chunks_one_message (key value a b : string) (c : Client.client) (t : trace) :
  ascii_text (key +:+ "=" +:+ value) = true ->
  lacks "013" (key +:+ "=" +:+ value) = true ->
  lacks "010" (key +:+ "=" +:+ value) = true ->
  lacks "=" key = true ->
  strip (key +:+ "=" +:+ value) = key +:+ "=" +:+ value ->
  Client._buffer c = "" ->
  a +:+ b = (key +:+ "=" +:+ value) +:+ CRLF ->
  exists (lines : list string) (c' : Client.client),
    Client.feed [a; b] c t = (Return lines, c', t) /\
    Client._buffer c' = "" /\
    messages lines = [(key, value)].
Proof.
  intros _ Hcr Hlf Hkey Hstrip Hbuf Hcut.
  set (l := key +:+ "=" +:+ value) in *.
  destruct (messages_one key value Hstrip Hkey) as [Hone Htwo]. fold l in Hone, Htwo.
  assert (forall (data : string) (c0 : Client.client) lines left,
            Client._buffer c0 = "" ->
            Client.split_lines (String.length data) data = (lines, left) ->
            Client._process_data data c0 t = (Return lines, Client.set_buffer left c0, t))
    as Hfresh.
  { intros data c0 lines left H0 H. apply process_data_run. rewrite H0, app_nil_l. exact H. }
  destruct (string_app_eq_app a b l CRLF Hcut) as [(m & Hl & Hb)|(m & Ha & Hm)].
  - (* the cut is inside the line or right after it *)
    assert (lacks "013" a = true /\ lacks "010" a = true) as [Hacr Half].
    { rewrite Hl, !lacks_app in Hcr, Hlf.
      apply andb_true_iff in Hcr as [? _]. apply andb_true_iff in Hlf as [? _]. auto. }
    exists [l], (Client.set_buffer "" (Client.set_buffer a c)).
    split; [|split; [reflexivity|exact Hone]].
    assert (Client._buffer (Client.set_buffer a c) +:+ b = l +:+ CRLF) as Hfull.
    { simpl. exact Hcut. }
    apply (feed_two a b c (Client.set_buffer a c) _ t [] [l]).
    + exact (Hfresh a c [] a Hbuf (split_lines_clean _ a Hacr Half)).
    + apply process_data_run.
      rewrite Hfull. destruct (length_app_pos l CRLF) as [n ->]; [discriminate|].
      apply split_lines_crlf; assumption.
  - (* the cut is inside CR LF or after it *)
    destruct m as [|x [|y m]].
    + (* a is the line, b is CR LF *)
      rewrite app_nil_l in Hm. rewrite string_app_nil_r in Ha. subst a b.
      exists [l], (Client.set_buffer "" (Client.set_buffer l c)).
      split; [|split; [reflexivity|exact Hone]].
      apply (feed_two l CRLF c (Client.set_buffer l c) _ t [] [l]).
      * exact (Hfresh l c [] l Hbuf (split_lines_clean _ l Hcr Hlf)).
      * apply process_data_run.
        simpl Client._buffer. destruct (length_app_pos l CRLF) as [n ->]; [discriminate|].
        apply split_lines_crlf; assumption.
    + (* a ends with CR, b is LF *)
      change CRLF with (String "013" (String "010" "")) in Hm.
      rewrite app_cons, app_nil_l in Hm.
      injection Hm as <- <-. change (String "013" "") with CR in Ha. subst a.
      exists [l; ""], (Client.set_buffer "" (Client.set_buffer "" c)).
      split; [|split; [reflexivity|exact Htwo]].
      destruct (length_app_pos l CR) as [n Hn]; [discriminate|].
      apply (feed_two (l +:+ CR) LF c (Client.set_buffer "" c) _ t [l] [""]).
      * apply (Hfresh (l +:+ CR) c [l] "" Hbuf).
        rewrite Hn. apply split_lines_cr; assumption.
      * apply process_data_run. reflexivity.
    + (* a is everything, b is empty *)
      change CRLF with (String "013" (String "010" "")) in Hm.
      rewrite !app_cons in Hm.
      injection Hm as <- <- Hm. destruct m; [|rewrite app_cons in Hm; discriminate].
      rewrite app_nil_l in Hm. subst b.
      change (String "013" (String "010" "")) with CRLF in Ha. subst a.
      exists [l], (Client.set_buffer "" (Client.set_buffer "" c)).
      split; [|split; [reflexivity|exact Hone]].
      destruct (length_app_pos l CRLF) as [n Hn]; [discriminate|].
      apply (feed_two (l +:+ CRLF) "" c (Client.set_buffer "" c) _ t [l] []).
      * apply (Hfresh (l +:+ CRLF) c [l] "" Hbuf).
        rewrite Hn. apply split_lines_crlf; assumption.
      * apply process_data_run. reflexivity.
Qed.

(** ** Connecting, and the one listen task *)

Section ConnectionFacts.
Import Client.
Variable E : env.

Ltac unfold_ops :=
  unfold send_command, send_raw, _try_reconnect, disconnect, connect,
    _connect_impl, call_reconnect_callback, cancel_listen_task, create_listen_task,
    transport_open, transport_write, transport_close,
    try_except, bind, ret, raise, get, modify, emit in *.

Ltac branch :=
  match goal with
  | |- context [open_outcome E ?x] => destruct (open_outcome E x) as [?e|] eqn:?
  | |- context [write_outcome E ?x ?d] => destruct (write_outcome E x d) as [?e|] eqn:?
  | |- context [close_outcome E ?x] => destruct (close_outcome E x) as [?e|] eqn:?
  | |- context [is_Exception ?e] => destruct (is_Exception e) eqn:?
  | |- context [is_OSError ?e] => destruct (is_OSError e) eqn:?
  end; simpl in *.

Ltac settle :=
  rewrite <- ?app_assoc; simpl;
  (eexists; split; [reflexivity|]);
  unfold listen_settled in *; simpl in *;
  repeat split; try intros; try discriminate; try lia; auto; try congruence.

(** X3.  [connect()] returns at once on a client marked connected.  On one
    marked disconnected it opens the transport once: if that completes, the
    client holds the new streams, is marked connected and has a running
    listen task, and its reconnect switch is as it was; if it raises, the
    client is left exactly as it was, and what the caller sees is a
    [NADClientError] for an OS error (for any [Exception], on a serial
    client) and the exception itself otherwise. *)
Theorem connect_outcome (c : client) (t : trace) :
  (_connected c = true -> connect E c t = (Return tt, c, t)) /\
  (_connected c = false ->
   match open_outcome E t with
   | None =>
       exists c' : client,
         connect E c t
         = (Return tt, c',
            t ++ [EvOpen None;
                  EvLog match kind c with
                        | TCP => "Connected to NAD receiver at %s:%s"
                        | Serial => "Connected to NAD receiver on %s at %d baud"
                        end;
                  EvStartListen]) /\
         _connected c' = true /\ _listen_task c' = Some Running /\
         _reader c' = Some (Handle (length t)) /\ _writer c' = Some (Handle (length t)) /\
         _reconnect_enabled c' = _reconnect_enabled c /\
         _is_reconnecting c' = _is_reconnecting c /\ _buffer c' = _buffer c
   | Some e =>
       connect E c t
       = (Raise match kind c with
                | TCP => if is_OSError e then NADClientError "Connection failed" else e
                | Serial => if is_Exception e
                            then NADClientError "Serial connection failed" else e
                end,
          c, t ++ [EvOpen (Some e)])
   end).
Proof.
  destruct c as [k conn cb lt buf en rec rd wr]. simpl.
  split; intros ->.
  - reflexivity.
  - unfold_ops. simpl. destruct (open_outcome E t) as [e|]; simpl.
    + destruct k; simpl; [destruct (is_OSError e)|destruct (is_Exception e)]; reflexivity.
    + eexists. rewrite <- !app_assoc. simpl.
      destruct k; simpl; (split; [reflexivity|]); simpl; auto 10.
Qed.

Lemma connect_listen (c : client) (t : trace) :
  listen_settled c ->
  one_listen_task_step c t (state_of (connect E c t)) (trace_of (connect E c t)).
Proof.
  destruct c as [k conn cb lt buf en rec rd wr]. unfold one_listen_task_step.
  intros Hinv. unfold_ops. simpl.
  destruct conn; simpl.
  { exists []. rewrite app_nil_r. unfold listen_settled in *. simpl in *.
    repeat split; auto; try lia; try discriminate. }
  assert (lt <> Some Running) as Hlt by (apply Hinv; reflexivity).
  destruct lt as [[|]|], k; try congruence; simpl; repeat branch; settle.
Qed.

Lemma disconnect_listen (c : client) (t : trace) :
  listen_settled c ->
  one_listen_task_step c t (state_of (disconnect E c t)) (trace_of (disconnect E c t)).
Proof.
  destruct c as [k conn cb lt buf en rec rd wr]. unfold one_listen_task_step.
  intros Hinv. unfold_ops. simpl.
  destruct conn; simpl.
  2:{ exists []. rewrite app_nil_r. repeat split; auto; simpl; try lia; try discriminate. }
  destruct lt as [[|]|], wr as [h|]; simpl; repeat branch; settle.
Qed.

Lemma try_reconnect_listen (c : client) (t : trace) :
  listen_settled c ->
  one_listen_task_step c t (state_of (_try_reconnect E c t)) (trace_of (_try_reconnect E c t)).
Proof.
  destruct c as [k conn cb lt buf en rec rd wr]. unfold one_listen_task_step.
  intros Hinv. unfold_ops; simpl.
  destruct rec; simpl.
  { exists []. rewrite app_nil_r. repeat split; auto; simpl; try lia; try discriminate. }
  destruct lt as [[|]|], cb as [[e|]|], k; simpl; repeat branch; settle.
Qed.

Lemma one_listen_task_step_after (c c1 : client) (t : trace) (pre : trace)
    (c' : client) (t' : trace) :
  _listen_task c1 = _listen_task c ->
  listen_starts pre = 0 -> listen_cancels pre = 0 ->
  one_listen_task_step c1 (t ++ pre) c' t' ->
  one_listen_task_step c t c' t'.
Proof.
  intros Hlt Hs Hc (new & -> & Hinv & Hle & Hcan). exists (pre ++ new).
  assert (forall a b, listen_starts (a ++ b) = listen_starts a + listen_starts b) as Hsa.
  { induction a as [|e a IH]; intros b; [reflexivity|]. destruct e; simpl; rewrite ?IH; auto. }
  assert (forall a b, listen_cancels (a ++ b) = listen_cancels a + listen_cancels b) as Hca.
  { induction a as [|e a IH]; intros b; [reflexivity|]. destruct e; simpl; rewrite ?IH; auto. }
  rewrite Hsa, Hca, Hs, Hc, <- Hlt, app_assoc. simpl. auto.
Qed.

Lemma one_listen_task_step_write (c : client) (t : trace) (data : string) (r : option exn) :
  listen_settled c -> one_listen_task_step c t c (t ++ [EvWrite data r]).
Proof.
  intros Hinv. exists [EvWrite data r]. simpl. repeat split; auto; try discriminate.
Qed.

Lemma one_listen_task_step_refl (c : client) (t : trace) :
  listen_settled c -> one_listen_task_step c t c t.
Proof.
  intros Hinv. exists []. rewrite app_nil_r. simpl. repeat split; auto; try discriminate.
Qed.

Lemma send_command_listen (command operator value : string) (c : client) (t : trace) :
  listen_settled c ->
  one_listen_task_step c t (state_of (send_command E command operator value c t))
    (trace_of (send_command E command operator value c t)).
Proof.
  intros Hinv. rewrite send_command_unfold. cbv zeta.
  set (cmd := command_string command operator value).
  assert (forall c0 t0, listen_settled c0 ->
            one_listen_task_step c0 t0 (state_of (send_raw E cmd c0 t0))
              (trace_of (send_raw E cmd c0 t0))) as Hraw.
  { intros c0 t0 H0.
    destruct (send_raw_cases E cmd c0 t0) as [[-> _]|(_ & _ & w & _ & ->)].
    - apply one_listen_task_step_refl. exact H0.
    - apply one_listen_task_step_write. exact H0. }
  destruct (send_raw_cases E cmd c t) as [[Hs _]|(_ & _ & w & _ & Hs)]; rewrite Hs.
  - simpl.
    destruct (negb (_connected c) && _reconnect_enabled c).
    2:{ apply one_listen_task_step_refl. exact Hinv. }
    pose proof (try_reconnect_listen c (t ++ [EvLog ATTEMPT]) Hinv) as Hcycle.
    apply (one_listen_task_step_after c c t [EvLog ATTEMPT]); try reflexivity.
    destruct (_try_reconnect E c (t ++ [EvLog ATTEMPT])) as [[[[|]|e] c2] t2];
      simpl in *; try exact Hcycle.
    destruct Hcycle as (new & -> & Hinv2 & Hle & Hcan).
    destruct (send_raw_cases E cmd c2 ((t ++ [EvLog ATTEMPT]) ++ new))
      as [[-> _]|(_ & _ & w & _ & ->)]; simpl.
    + exists new. auto.
    + exists (new ++ [EvWrite (wire cmd) w]). rewrite app_assoc.
      assert (forall a, listen_starts (a ++ [EvWrite (wire cmd) w]) = listen_starts a) as Hsa.
      { induction a as [|e a IH]; [reflexivity|]. destruct e; simpl; rewrite ?IH; auto. }
      assert (forall a, listen_cancels (a ++ [EvWrite (wire cmd) w]) = listen_cancels a) as Hca.
      { induction a as [|e a IH]; [reflexivity|]. destruct e; simpl; rewrite ?IH; auto. }
      rewrite Hsa, Hca. auto.
  - assert (one_listen_task_step c t c (t ++ [EvWrite (wire cmd) w])) as Hstep
      by (apply one_listen_task_step_write; exact Hinv).
    destruct w as [e|]; simpl; [|exact Hstep].
    destruct (is_Exception e); simpl.
    + destruct (negb (_connected c) && _reconnect_enabled c) eqn:Hcond; simpl.
      * exfalso. destruct (send_raw_cases E cmd c t) as [[Hs' _]|(Hconn & _)].
        -- rewrite Hs in Hs'. discriminate.
        -- rewrite Hconn in Hcond. discriminate.
      * exact Hstep.
    + destruct (is_NADClientError e); simpl; [|exact Hstep].
      destruct (negb (_connected c) && _reconnect_enabled c) eqn:Hcond; simpl.
      * exfalso. destruct (send_raw_cases E cmd c t) as [[Hs' _]|(Hconn & _)].
        -- rewrite Hs in Hs'. injection Hs' as _ Ht.
           apply (f_equal (@length event)) in Ht. rewrite length_app in Ht. simpl in Ht. lia.
        -- rewrite Hconn in Hcond. discriminate.
      * exact Hstep.
Qed.

Lemma listen_loop_step_listen (r : read_outcome) (c : client) (t : trace) :
  listen_settled c ->
  one_listen_task_step c t (state_of (_listen_loop_step r c t))
    (trace_of (_listen_loop_step r c t)).
Proof.
  intros Hinv. unfold _listen_loop_step, bind, get.
  destruct (_connected c && bool_decide (is_Some (_reader c))) eqn:Hloop.
  - destruct r as [text| |e].
    + destruct (process_data_spec text c t) as (lines & seps & left & -> & _).
      simpl. exists []. rewrite app_nil_r. simpl. repeat split; auto; try discriminate.
    + simpl. exists []. rewrite app_nil_r. simpl. repeat split; auto; discriminate.
    + unfold modify, ret. destruct (is_CancelledError e), (is_Exception e); simpl;
        exists []; rewrite app_nil_r; simpl; repeat split; auto; discriminate.
  - simpl. exists []. rewrite app_nil_r. simpl. repeat split; auto; discriminate.
Qed.

(** X4.  On a new client, "marked disconnected" implies "no running listen
    task".  [connect], [disconnect], [_try_reconnect], [send_command] and an
    iteration of the listen loop all keep this, whatever the transport does;
    each creates at most one listen task, and creates one while another is
    running only after cancelling that one.  So at most one listen task is
    alive at any time. *)
Theorem one_listen_task (c : client) (t : trace) :
  listen_settled c ->
  listen_settled (new_client (kind c)) /\
  one_listen_task_step c t (state_of (connect E c t)) (trace_of (connect E c t)) /\
  one_listen_task_step c t (state_of (disconnect E c t)) (trace_of (disconnect E c t)) /\
  one_listen_task_step c t (state_of (_try_reconnect E c t))
    (trace_of (_try_reconnect E c t)) /\
  (forall command operator value : string,
     one_listen_task_step c t (state_of (send_command E command operator value c t))
       (trace_of (send_command E command operator value c t))) /\
  (forall r : read_outcome,
     one_listen_task_step c t (state_of (_listen_loop_step r c t))
       (trace_of (_listen_loop_step r c t))).
Proof.
  intros Hinv. split; [discriminate|].
  split; [apply connect_listen; exact Hinv|].
  split; [apply disconnect_listen; exact Hinv|].
  split; [apply try_reconnect_listen; exact Hinv|].
  split; [intros; apply send_command_listen; exact Hinv|].
  intros; apply listen_loop_step_listen; exact Hinv.
Qed.

End ConnectionFacts.

Section ReconnectSwitchFacts.
Import Client.
Variable E : env.

(** What a [connect()] that returns leaves intact. *)
Lemma connect_keeps_switch (c c' : client) (t t' : trace) :
  connect E c t = (Return tt, c', t') ->
  _reconnect_enabled c' = _reconnect_enabled c /\ _connected c' = true /\
  (_connected c = false -> is_Some (_reader c')).
Proof.
  destruct c as [k conn cb lt buf en rec rd wr].
  unfold connect, _connect_impl, create_listen_task, transport_open,
    try_except, bind, ret, raise, get, modify, emit. simpl.
  destruct conn; simpl.
  - intros H. injection H as <- _. repeat split. discriminate.
  - destruct (open_outcome E t) as [e|]; simpl.
    + destruct k; simpl; [destruct (is_OSError e)|destruct (is_Exception e)]; discriminate.
    + intros H. injection H as <- _. simpl. eauto.
Qed.

(** X5.  Nothing turns auto-reconnect on again.  After a [disconnect()] of a
    connected client has returned, a [connect()] that succeeds gives a
    connected client whose reconnect switch is still off; when its listen
    loop then reads the end of the stream, [send_command] raises the client
    error "Not connected" without touching the transport or the client. *)
Theorem reconnect_stays_disabled (c c1 c2 : client) (t t1 t2 : trace)
    (command operator value : string) :
  _connected c = true ->
  disconnect E c t = (Return tt, c1, t1) ->
  connect E c1 t1 = (Return tt, c2, t2) ->
  _connected c2 = true /\ _reconnect_enabled c2 = false /\
  send_command E command operator value (state_of (_listen_loop_step ReadEOF c2 t2)) t2
  = (Raise (NADClientError "Not connected"), state_of (_listen_loop_step ReadEOF c2 t2), t2).
Proof.
  intros Hconn Hdis Hcon.
  destruct (disconnect_marked_connected E c c1 t t1 Hconn Hdis) as (Hen1 & Hconn1 & _).
  destruct (connect_keeps_switch c1 c2 t1 t2 Hcon) as (Hen2 & Hconn2 & Hrd2).
  specialize (Hrd2 Hconn1).
  rewrite Hen1 in Hen2. split; [exact Hconn2|]. split; [exact Hen2|].
  set (c3 := state_of (_listen_loop_step ReadEOF c2 t2)).
  assert (_connected c3 = false /\ _reconnect_enabled c3 = false) as [Hc3 He3].
  { unfold c3, _listen_loop_step, bind, get, modify, ret.
    rewrite Hconn2, bool_decide_eq_true_2 by exact Hrd2. simpl. auto. }
  rewrite send_command_unfold. cbv zeta.
  destruct (send_raw_cases E (command_string command operator value) c3 t2)
    as [[-> _]|(Hconn3 & _)]; [|congruence].
  simpl. rewrite Hc3, He3. reflexivity.
Qed.

End ReconnectSwitchFacts.

(** ** Partial lines *)

(** X6.  Text without CR or LF is only stored: fed any number of such
    chunks, a client whose buffer holds no terminator emits no line, and its
    buffer is the old one followed by all chunks, however long that is. *)
Theorem partial_line_is_kept (chunks : list string) (c : Client.client) (t : trace) :
  lacks "013" (Client._buffer c) = true -> lacks "010" (Client._buffer c) = true ->
  Forall (fun data => lacks "013" data = true /\ lacks "010" data = true) chunks ->
  exists c' : Client.client,
    Client.feed chunks c t = (Return [], c', t) /\
    Client._buffer c' = Client._buffer c +:+ cat chunks.
Proof.
  intros Hcr Hlf Hall. revert c Hcr Hlf.
  induction Hall as [|data rest [Hdcr Hdlf] _ IH]; intros c Hcr Hlf.
  - exists c. simpl. rewrite string_app_nil_r. auto.
  - assert (lacks "013" (Client._buffer c +:+ data) = true /\
            lacks "010" (Client._buffer c +:+ data) = true) as [Hcr' Hlf'].
    { rewrite !lacks_app, Hcr, Hlf, Hdcr, Hdlf. auto. }
    pose proof (process_data_run data c t [] (Client._buffer c +:+ data)
                  (split_lines_clean _ _ Hcr' Hlf')) as Hrun.
    destruct (IH (Client.set_buffer (Client._buffer c +:+ data) c) Hcr' Hlf')
      as (c' & Hfeed & Hbuf).
    exists c'. split.
    + cbn [Client.feed]. unfold bind, ret. rewrite Hrun, Hfeed. reflexivity.
    + rewrite Hbuf. simpl. rewrite string_app_assoc. reflexivity.
Qed.

(** ** Refreshing the state, disconnecting, and listeners *)

Section RefreshFacts.
Import Coordinator.
Variable E : env.

(** On a connected client whose write raises an [Exception], a command is the
    failed write and a client error. *)
Lemma client_send_fails (command operator value : string) (c : Client.client)
    (t : trace) (e : exn) :
  Client._connected c = true -> is_Some (Client._writer c) ->
  write_outcome E t (Client.wire (Client.command_string command operator value)) = Some e ->
  is_Exception e = true ->
  Client.send_command E command operator value c t
  = (Raise (NADClientError "Failed to send data"), c,
     t ++ [EvWrite (Client.wire (Client.command_string command operator value)) (Some e)]).
Proof.
  intros Hconn Hwr Hw He. rewrite send_command_unfold. cbv zeta.
  destruct (send_raw_cases E (Client.command_string command operator value) c t)
    as [[_ [Hd|Hd]]|(_ & _ & w & Hout & ->)].
  - congruence.
  - rewrite Hd in Hwr. destruct Hwr as [? ?]. discriminate.
  - rewrite Hw in Hout. subst w. rewrite He. simpl. rewrite Hconn. reflexivity.
Qed.

Lemma query_ok (key : string) (co : coordinator) (c : Client.client) (t : trace) :
  (forall (t : trace) (d : string), write_outcome E t d = None) ->
  client co = Some c -> Client._connected c = true -> is_Some (Client._writer c) ->
  with_client (Client.send_command E key "?" "") co t
  = (Return tt, co, t ++ [EvWrite (query key) None]).
Proof.
  intros Hw Hc Hconn Hwr. unfold with_client. rewrite Hc.
  rewrite client_send_ok by auto. rewrite (set_client_same co c Hc). reflexivity.
Qed.

(** X7.  [_refresh_state] never raises an [Exception], with or without a
    client.  On a connected client whose writes complete it writes the four
    queries for Main.Power, Main.Volume, Main.Mute and Main.Source, in this
    order, then sleeps 500 ms once, and the cache takes what arrives in that
    time.  If the first write raises an [Exception], nothing else is written,
    nothing sleeps, and it returns all the same. *)
Theorem refresh_state_outcome (co : coordinator) (t : trace) :
  (forall e : exn, result_of (_refresh_state E co t) = Raise e -> is_Exception e = false) /\
  (forall c : Client.client,
     (forall (t : trace) (d : string), write_outcome E t d = None) ->
     client co = Some c -> Client._connected c = true -> is_Some (Client._writer c) ->
     exists co' t',
       _refresh_state E co t = (Return tt, co', t') /\
       writes t' = writes t ++ [(query "Main.Power", None); (query "Main.Volume", None);
                                (query "Main.Mute", None); (query "Main.Source", None)] /\
       sleeps t' = sleeps t ++ [500] /\
       data co' = store (data co)
                    (delivered 500
                       (arrivals E (t ++ [EvWrite (query "Main.Power") None;
                                          EvWrite (query "Main.Volume") None;
                                          EvWrite (query "Main.Mute") None;
                                          EvWrite (query "Main.Source") None])))) /\
  (forall (c : Client.client) (e : exn),
     client co = Some c -> Client._connected c = true -> is_Some (Client._writer c) ->
     write_outcome E t (query "Main.Power") = Some e -> is_Exception e = true ->
     _refresh_state E co t
     = (Return tt, co, t ++ [EvWrite (query "Main.Power") (Some e)])) /\
  (client co = None -> _refresh_state E co t = (Return tt, co, t)).
Proof.
  split; [|split; [|split]].
  - intros e. unfold _refresh_state, try_except.
    match goal with |- context [match ?m co t with _ => _ end] =>
      destruct (m co t) as [[[u|e'] s'] t'] end; [discriminate|].
    destruct (is_Exception e') eqn:He; [discriminate|].
    simpl. intros Heq. injection Heq as <-. exact He.
  - intros c Hw Hc Hconn Hwr.
    unfold _refresh_state, try_except.
    unfold bind at 1. rewrite (query_ok "Main.Power" co c t Hw Hc Hconn Hwr).
    unfold bind at 1. rewrite (query_ok "Main.Volume" co c _ Hw Hc Hconn Hwr).
    unfold bind at 1. rewrite (query_ok "Main.Mute" co c _ Hw Hc Hconn Hwr).
    unfold bind at 1. rewrite (query_ok "Main.Source" co c _ Hw Hc Hconn Hwr).
    rewrite <- !app_assoc. simpl.
    destruct (sleep_obs E 500 co
                (t ++ [EvWrite (query "Main.Power") None; EvWrite (query "Main.Volume") None;
                       EvWrite (query "Main.Mute") None; EvWrite (query "Main.Source") None]))
      as (co' & t' & -> & _ & _ & Hd & Hwt & Hsl).
    exists co', t'. split; [reflexivity|].
    rewrite Hwt, Hsl, Hd, writes_app, sleeps_app. simpl. rewrite app_nil_r. auto.
  - intros c e Hc Hconn Hwr Hw He.
    unfold _refresh_state, try_except. unfold bind at 1, with_client at 1. rewrite Hc.
    rewrite (client_send_fails "Main.Power" "?" "" c t e Hconn Hwr Hw He).
    rewrite (set_client_same co c Hc). reflexivity.
  - intros Hc. unfold _refresh_state, try_except, bind, with_client. rewrite Hc. reflexivity.
Qed.

(** X8.  The coordinator's [disconnect()] acts on the client only: a
    [_debounced_notify] task that is asleep stays asleep, and when its time
    is over the listeners are called as if nothing had happened. *)
Theorem disconnect_keeps_pending_notification (co : coordinator) (t : trace) (r : nat) :
  armed r co ->
  exists (res : result unit) (co' : coordinator) (t' : trace),
    disconnect E co t = (res, co', t') /\
    armed r co' /\ data co' = data co /\ _listeners co' = _listeners co /\
    updates t' = updates t /\
    exists co'', elapse r co' t' = (co'', t' ++ notify co) /\ idle co''.
Proof.
  intros Harmed.
  assert (exists res co' t',
            disconnect E co t = (res, co', t') /\
            hass co' = hass co /\ _update_debounce_task co' = _update_debounce_task co /\
            data co' = data co /\ _listeners co' = _listeners co /\
            updates t' = updates t) as (res & co' & t' & Hrun & Hh & Hp & Hd & Hl & Hu).
  { unfold disconnect, bind, get, with_client.
    destruct (client co) as [c|] eqn:Hc.
    - rewrite Hc.
      assert (updates (trace_of (Client.disconnect E c t)) = updates t) as Hu.
      { destruct c as [k conn cb lt buf en rec rd wr].
        unfold Client.disconnect, Client.cancel_listen_task, Client.transport_close,
          try_except, bind, ret, raise, get, modify, emit. simpl.
        destruct conn, lt as [[|]|], wr as [h|]; simpl; try reflexivity;
          try (destruct (close_outcome E _) as [e|]; simpl; try destruct (is_Exception e));
          simpl; rewrite <- ?app_assoc, ?updates_app; simpl; rewrite ?app_nil_r; reflexivity. }
      destruct (Client.disconnect E c t) as [[res c'] t']. simpl in Hu.
      exists res, (set_client (Some c') co), t'. simpl. auto 10.
    - exists (Return tt), co, t. auto 10. }
  exists res, co', t'.
  assert (armed r co') as Harmed'.
  { destruct Harmed as (old & Hold & Hdone & Hptr). exists old.
    rewrite Hh, Hp. auto. }
  split; [exact Hrun|]. split; [exact Harmed'|]. split; [exact Hd|].
  split; [exact Hl|]. split; [exact Hu|].
  destruct (elapse_armed_fire r r co' t' Harmed' (Nat.le_refl r))
    as (co'' & Hel & Hidle & _ & _).
  exists co''. split; [|exact Hidle].
  rewrite Hel. unfold notify. rewrite Hd, Hl. reflexivity.
Qed.

End RefreshFacts.

Section ListenerFacts.
Import Coordinator.

Lemma list_remove_app_fresh (l : listener) (pre post : list listener) :
  l ∉ pre -> list_remove l (pre ++ l :: post) = Some (pre ++ post).
Proof.
  induction pre as [|x pre IH]; intros Hnot; simpl.
  - rewrite decide_True by reflexivity. reflexivity.
  - rewrite not_elem_of_cons in Hnot. destruct Hnot as [Hne Hnot].
    rewrite decide_False by congruence. rewrite IH by exact Hnot. reflexivity.
Qed.

Lemma list_remove_absent (l : listener) (ls : list listener) :
  l ∉ ls -> list_remove l ls = None.
Proof.
  induction ls as [|x ls IH]; intros Hnot; simpl; [reflexivity|].
  rewrite not_elem_of_cons in Hnot. destruct Hnot as [Hne Hnot].
  rewrite decide_False by congruence. rewrite IH by exact Hnot. reflexivity.
Qed.

Lemma list_remove_perm (l : listener) (ls ls' : list listener) :
  list_remove l ls = Some ls' -> ls ≡ₚ l :: ls'.
Proof.
  revert ls'. induction ls as [|x ls IH]; intros ls' H; simpl in H; [discriminate|].
  destruct (decide (x = l)) as [->|Hne].
  - injection H as <-. reflexivity.
  - destruct (list_remove l ls) as [rest|]; [|discriminate].
    injection H as <-. rewrite (IH rest eq_refl). apply Permutation_swap.
Qed.

Lemma list_remove_present (l : listener) (ls : list listener) :
  l ∈ ls -> is_Some (list_remove l ls).
Proof.
  induction ls as [|x ls IH]; intros Hin; [inversion Hin|]. simpl.
  destruct (decide (x = l)) as [->|Hne]; [eauto|].
  apply elem_of_cons in Hin as [->|Hin]; [congruence|].
  destruct (IH Hin) as [rest ->]. eauto.
Qed.

(** X9.  Registering a listener and calling the function this returns: the
    call returns, and the listeners are the previous ones up to order (the
    first entry equal to the listener is the one that goes); if the listener
    was not registered before, the coordinator is exactly as it was, and
    calling the function a second time raises (the [ValueError] of
    [list.remove]) and changes nothing. *)
Theorem add_then_remove_listener (l : listener) (co : coordinator) (t : trace) :
  (exists co',
     remove_listener l (async_add_listener l co) t = (Return tt, co', t) /\
     _listeners co' ≡ₚ _listeners co /\
     set_listeners (_listeners co) co' = co) /\
  (l ∉ _listeners co ->
   remove_listener l (async_add_listener l co) t = (Return tt, co, t) /\
   remove_listener l co t = (Raise OtherException, co, t)).
Proof.
  split.
  - unfold remove_listener, bind, get, modify, raise. simpl.
    destruct (list_remove_present l (_listeners co ++ [l])) as [ls Hls].
    { apply elem_of_app. right. constructor. }
    rewrite Hls. eexists. split; [reflexivity|]. simpl. split.
    + apply list_remove_perm in Hls.
      apply (Permutation_cons_inv (a := l)).
      rewrite <- Hls. symmetry. apply Permutation_cons_append.
    + destruct co; reflexivity.
  - intros Hnot. unfold remove_listener, bind, get, modify, raise. simpl.
    pose proof (list_remove_app_fresh l (_listeners co) [] Hnot) as Hrm.
    rewrite Hrm, app_nil_r. rewrite (list_remove_absent l _ Hnot).
    split; [|reflexivity]. destruct co; reflexivity.
Qed.

Lemma for_each_cons {S A : Type} (x : A) (rest : list A) (body : A -> prog S unit)
    (s : S) (t : trace) :
  for_each (x :: rest) body s t =
  match body x s t with
  | (Return _, s', t') => for_each rest body s' t'
  | (Raise e, s', t') => (Raise e, s', t')
  end.
Proof. reflexivity. Qed.

Lemma call_listener_run (react : listener -> reaction) (l : listener)
    (co : coordinator) (t : trace) :
  call_listener react l co t =
  match react l with
  | Returns => (Return tt, co, t ++ [EvUpdateCallback l (data co)])
  | Unregisters =>
      match list_remove l (_listeners co) with
      | Some ls => (Return tt, set_listeners ls co, t ++ [EvUpdateCallback l (data co)])
      | None => (Raise OtherException, co, t ++ [EvUpdateCallback l (data co)])
      end
  | Fails e => (Raise e, co, t ++ [EvUpdateCallback l (data co)])
  end.
Proof.
  unfold call_listener, remove_listener, bind, get, emit, ret, raise, modify.
  destruct (react l); try reflexivity.
  destruct (list_remove l (_listeners co)); reflexivity.
Qed.

(** The state of a round: the listeners already called that stay, then the
    ones still to call. *)
Lemma round_loop (react : listener -> reaction) (todo : list listener) :
  forall (kept : list listener) (co : coordinator) (t : trace),
    _listeners co = kept ++ todo ->
    Forall (fun l => stays react l = true) kept ->
    for_each todo (call_listener react) co t
    = (match snd (until_failure react todo) with
       | None => Return tt
       | Some e => Raise e
       end,
       set_listeners
         (kept ++ filter (fun l => stays react l = true) (fst (until_failure react todo))
               ++ drop (length (fst (until_failure react todo))) todo) co,
       t ++ map (fun l => EvUpdateCallback l (data co)) (fst (until_failure react todo))).
Proof.
  induction todo as [|l todo IH]; intros kept co t Hls Hkept.
  - simpl. unfold ret. rewrite !app_nil_r, <- (app_nil_r kept), <- Hls.
    destruct co; reflexivity.
  - rewrite for_each_cons, call_listener_run. cbn [until_failure].
    destruct (react l) as [| |e] eqn:Hl.
    + (* the listener returns *)
      assert (Forall (fun x => stays react x = true) (kept ++ [l])) as Hkept'.
      { apply Forall_app. split; [exact Hkept|]. constructor; [|constructor].
        unfold stays. rewrite Hl. reflexivity. }
      rewrite (IH (kept ++ [l]) co (t ++ [EvUpdateCallback l (data co)]))
        by (try exact Hkept'; rewrite Hls, <- app_assoc; reflexivity).
      destruct (until_failure react todo) as [called failure]. simpl.
      rewrite filter_cons_True by (unfold stays; rewrite Hl; reflexivity).
      rewrite <- !app_assoc. reflexivity.
    + (* the listener unregisters itself *)
      rewrite Hls.
      assert (l ∉ kept) as Hfresh.
      { intros Hin. rewrite Forall_forall in Hkept. specialize (Hkept l Hin).
        unfold stays in Hkept. rewrite Hl in Hkept. discriminate. }
      rewrite (list_remove_app_fresh l kept todo Hfresh).
      rewrite (IH kept (set_listeners (kept ++ todo) co) (t ++ [EvUpdateCallback l (data co)]))
        by (try exact Hkept; reflexivity).
      destruct (until_failure react todo) as [called failure]. simpl.
      rewrite filter_cons_False by (unfold stays; rewrite Hl; discriminate).
      rewrite <- !app_assoc. reflexivity.
    + (* the listener raises *)
      simpl.
      rewrite filter_cons_True by (unfold stays; rewrite Hl; reflexivity).
      simpl. rewrite drop_0.
      replace (set_listeners (kept ++ l :: todo) co) with co
        by (rewrite <- Hls; destruct co; reflexivity).
      reflexivity.
Qed.

(** X10.  A round of [_debounced_notify], for listeners that return,
    unregister themselves or raise.  The listeners are called in the order of
    registration, each reading the same cache, up to and including the first
    one that raises: the ones after it are not called.  A listener that
    unregisters itself during the round does not disturb it; afterwards the
    registered listeners are those that were called and stay, followed by
    those not called.  What the first failing listener raises leaves the
    task, unless it is [CancelledError], which is swallowed; with no failing
    listener the round is the one of [notify]. *)
Theorem notification_round (react : listener -> reaction) (co : coordinator) (t : trace) :
  let called := fst (until_failure react (_listeners co)) in
  let failure := snd (until_failure react (_listeners co)) in
  _debounced_notify_round react co t
  = (match failure with
     | None => Return tt
     | Some e => if is_CancelledError e then Return tt else Raise e
     end,
     set_listeners (filter (fun l => stays react l = true) called
                      ++ drop (length called) (_listeners co)) co,
     t ++ map (fun l => EvUpdateCallback l (data co)) called) /\
  (failure = None -> called = _listeners co /\
                     map (fun l => EvUpdateCallback l (data co)) called = notify co).
Proof.
  cbv zeta. split.
  - unfold _debounced_notify_round, try_except, bind at 1, get.
    rewrite (round_loop react (_listeners co) [] co t eq_refl (Forall_nil_2 _)).
    simpl. destruct (snd (until_failure react (_listeners co))) as [e|]; [|reflexivity].
    destruct (is_CancelledError e); reflexivity.
  - assert (forall ls, snd (until_failure react ls) = None ->
                       fst (until_failure react ls) = ls) as Hall.
    { induction ls as [|l ls IH]; [reflexivity|]. simpl.
      destruct (react l); try discriminate;
        destruct (until_failure react ls) as [called failure]; simpl in *;
        intros H; rewrite (IH H); reflexivity. }
    intros Hnone. rewrite (Hall _ Hnone). split; reflexivity.
Qed.

End ListenerFacts.


(** ** The volume mapping, both ways *)

Section VolumeFacts.
Import MediaPlayer.

(** [round] is within a half of its argument, and picks the even neighbour
    at a tie. *)
Lemma py_round_cases (x : Q) :
  ((x - inject_Z (Qfloor x) < 1 # 2)%Q /\ py_round x = Qfloor x) \/
  ((1 # 2 < x - inject_Z (Qfloor x))%Q /\ py_round x = (Qfloor x + 1)%Z) \/
  ((x - inject_Z (Qfloor x) == 1 # 2)%Q /\
   py_round x = if Z.even (Qfloor x) then Qfloor x else (Qfloor x + 1)%Z).
Proof.
  unfold py_round. cbv zeta.
  destruct (Qcompare (x - inject_Z (Qfloor x)) (1 # 2)) eqn:Hc.
  - right. right. split; [apply Qeq_alt; exact Hc|reflexivity].
  - left. split; [apply Qlt_alt; exact Hc|reflexivity].
  - right. left. split; [apply Qgt_alt; exact Hc|reflexivity].
Qed.

Lemma inject_Z_succ (z : Z) : (inject_Z (z + 1) == inject_Z z + 1)%Q.
Proof. rewrite inject_Z_plus. reflexivity. Qed.


Lemma py_round_monotone (x y : Q) : (x <= y)%Q -> (py_round x <= py_round y)%Z.
Proof.
  intros Hxy.
  pose proof (Qfloor_resp_le x y Hxy) as Hf.
  pose proof (Qfloor_le x) as Hxlo. pose proof (Qlt_floor x) as Hxhi.
  pose proof (Qfloor_le y) as Hylo. pose proof (Qlt_floor y) as Hyhi.
  rewrite inject_Z_succ in Hxhi, Hyhi.
  destruct (Z.eq_dec (Qfloor x) (Qfloor y)) as [Heq|Hne].
  - destruct (py_round_cases x) as [[Hx ->]|[[Hx ->]|[Hx ->]]];
      destruct (py_round_cases y) as [[Hy ->]|[[Hy ->]|[Hy ->]]];
      rewrite <- ?Heq in *; try destruct (Z.even (Qfloor x)); try lia;
      exfalso; lra.
  - assert (Qfloor x + 1 <= Qfloor y)%Z as Hstep by lia.
    assert (py_round x <= Qfloor x + 1)%Z.
    { destruct (py_round_cases x) as [[_ ->]|[[_ ->]|[_ ->]]];
        try destruct (Z.even (Qfloor x)); lia. }
    assert (Qfloor y <= py_round y)%Z.
    { destruct (py_round_cases y) as [[_ ->]|[[_ ->]|[_ ->]]];
        try destruct (Z.even (Qfloor y)); lia. }
    lia.
Qed.

Lemma span_nonneg (self : NAD) :
  (0 <= inject_Z (Z.abs (_min_volume self - _max_volume self)))%Q.
Proof. change 0%Q with (inject_Z 0). rewrite <- Zle_Qle. lia. Qed.

(** X11.  With [_min_volume <= _max_volume], [calc_db] sends the volumes from
    0 to 1 to decibel values from the minimum to the maximum, in a monotone
    way: for [0 <= v <= w <= 1] it gives
    [min <= calc_db v <= calc_db w <= max]; [calc_db 0] is the minimum and
    [calc_db 1] the maximum. *)
Theorem calc_db_in_range (self : NAD) (v w : Q) :
  (_min_volume self <= _max_volume self)%Z ->
  (0 <= v)%Q -> (v <= w)%Q -> (w <= 1)%Q ->
  (_min_volume self <= calc_db self v)%Z /\
  (calc_db self v <= calc_db self w)%Z /\
  (calc_db self w <= _max_volume self)%Z /\
  calc_db self 0 = _min_volume self /\
  calc_db self 1 = _max_volume self.
Proof.
  intros Hspan Hv Hvw Hw. pose proof (span_nonneg self) as Hd.
  unfold calc_db.
  set (D := inject_Z (Z.abs (_min_volume self - _max_volume self))) in *.
  assert (py_round (D * 0) = 0%Z) as H0.
  { apply py_round_integer. change (inject_Z 0) with 0%Q. ring. }
  assert (py_round (D * 1) = (_max_volume self - _min_volume self)%Z) as H1.
  { apply py_round_integer. unfold D.
    replace (Z.abs (_min_volume self - _max_volume self))
      with (_max_volume self - _min_volume self)%Z by lia. ring. }
  assert (py_round (D * 0) <= py_round (D * v))%Z as Ha.
  { apply py_round_monotone. nra. }
  assert (py_round (D * v) <= py_round (D * w))%Z as Hb.
  { apply py_round_monotone. nra. }
  assert (py_round (D * w) <= py_round (D * 1))%Z as Hc.
  { apply py_round_monotone. nra. }
  lia.
Qed.



(** X13.  [calc_volume] does not clamp.  With [_min_volume < _max_volume] its
    result is never negative; a decibel value below the minimum gives the
    volume of the value mirrored above the minimum, a positive one; and a
    decibel value above the maximum gives more than 1. *)
Theorem calc_volume_not_clamped (self : NAD) (x : Q) :
  (_min_volume self < _max_volume self)%Z ->
  (0 <= calc_volume self x)%Q /\
  (calc_volume self (inject_Z (_min_volume self) - x)
   == calc_volume self (inject_Z (_min_volume self) + x))%Q /\
  (inject_Z (_max_volume self) < x -> 1 < calc_volume self x)%Q /\
  (x < inject_Z (_min_volume self) -> 0 < calc_volume self x)%Q.
Proof.
  intros Hspan. unfold calc_volume.
  replace (Z.abs (_min_volume self - _max_volume self))
    with (_max_volume self - _min_volume self)%Z by lia.
  rewrite <- inject_Z_sub.
  set (lo := inject_Z (_min_volume self)). set (hi := inject_Z (_max_volume self)).
  assert (lo < hi)%Q as Hlt by (unfold lo, hi; rewrite <- Zlt_Qlt; exact Hspan).
  assert (0 < / (hi - lo))%Q as Hinv by (apply Qinv_lt_0_compat; lra).
  assert ((hi - lo) * / (hi - lo) == 1)%Q as Hone by (apply Qmult_inv_r; lra).
  unfold Qdiv. set (i := (/ (hi - lo))%Q) in *.
  split; [|split; [|split]].
  - apply Qmult_le_0_compat; [apply Qabs_nonneg|lra].
  - assert (Qabs (lo - (lo - x)) == Qabs (lo - (lo + x)))%Q as ->; [|reflexivity].
    assert (lo - (lo - x) == - (lo - (lo + x)))%Q as -> by ring.
    apply Qabs_opp.
  - intros Hx.
    assert (Qabs (lo - x) == x - lo)%Q as ->.
    { rewrite Qabs_neg by lra. ring. }
    assert (0 < (x - hi) * i)%Q by (apply Qmult_lt_0_compat; lra).
    lra.
  - intros Hx.
    assert (Qabs (lo - x) == lo - x)%Q as -> by (apply Qabs_pos; lra).
    apply Qmult_lt_0_compat; lra.
Qed.

End VolumeFacts.

(** ** The entity: decimal text *)

Section DecimalTextFacts.
Import Entity.



Lemma to_uint_nonnil (n : nat) : Nat.to_uint n <> Decimal.Nil.
Proof.
  intros H. pose proof (DecimalNat.Unsigned.to_of (Nat.to_uint n)) as Hn.
  rewrite DecimalNat.Unsigned.of_to, H in Hn. discriminate.
Qed.

(** [int(str(i))] is [i], and [str(i)] is numeric. *)
Lemma uint_of_str (n : nat) : NilZero.uint_of_string (str n) = Some (Nat.to_uint n).
Proof. apply NilZero.usu. apply to_uint_nonnil. Qed.

Lemma isnumeric_str (n : nat) : isnumeric (str n) = true.
Proof. unfold isnumeric. rewrite uint_of_str. reflexivity. Qed.

Lemma py_int_str {S : Type} (n : nat) (s : S) (t : trace) :
  py_int (str n) s t = (Return n, s, t).
Proof.
  unfold py_int. rewrite uint_of_str, DecimalNat.Unsigned.of_to. reflexivity.
Qed.

Lemma py_int_numeric {S : Type} (text : string) (s : S) (t : trace) :
  isnumeric text = true -> exists n : nat, py_int text s t = (Return n, s, t).
Proof.
  unfold isnumeric, py_int. destruct (NilZero.uint_of_string text) as [d|]; [|discriminate].
  intros _. eexists. reflexivity.
Qed.






End DecimalTextFacts.

Section UpdateFacts.
Import Coordinator MediaPlayer Entity.

Ltac run_update :=
  unfold _handle_coordinator_update, bind, modify, get, ret, raise; cbn beta iota.

(** X14.  [_handle_coordinator_update] adds nothing to the trace and never
    touches the volume range or the source tables.  [_attr_available]
    becomes "the client is there and marked connected", whatever the power
    state.  When that is false, no other attribute changes.  When it is true,
    [_attr_state] is the coordinator's power state, OFF while that is unknown;
    and unless the power state is ON, mute, volume level and source keep the
    values they had. *)
Theorem update_keeps_last_values (co : coordinator) (self : entity) (t : trace) :
  let r := _handle_coordinator_update co self t in
  trace_of r = t /\
  volumes (state_of r) = volumes self /\
  _source_dict (state_of r) = _source_dict self /\
  _reverse_mapping (state_of r) = _reverse_mapping self /\
  _attr_available (state_of r) = reachable co /\
  (reachable co = false -> r = (Return tt, set_attr_available false self, t)) /\
  (reachable co = true ->
   _attr_state (state_of r) = Some (default OFF (power_state co)) /\
   (power_state co <> Some ON ->
    r = (Return tt,
         set_attr_state (Some (default OFF (power_state co))) (set_attr_available true self),
         t))).
Proof.
  cbv zeta. unfold reachable. run_update.
  destruct (match client co with Some c => Client._connected c | None => false end);
    simpl.
  2:{ repeat split; auto; try discriminate. }
  destruct (power_state co) as [[|]|]; simpl.
  2,3: repeat split; auto; try discriminate; try congruence.
  destruct (data co !! (zone +:+ ".Volume")) as [volume|]; simpl.
  - destruct (isnumeric (lstrip_minus volume)); simpl.
    + unfold py_float. destruct (NilZero.int_of_string volume) as [d|]; simpl.
      * destruct (data co !! (zone +:+ ".Source")) as [source|]; simpl.
        -- destruct (negb (String.eqb source "") && isnumeric source); simpl.
           ++ unfold py_int. destruct (NilZero.uint_of_string source); simpl;
                repeat split; auto; try discriminate; try congruence.
           ++ repeat split; auto; try discriminate; try congruence.
        -- repeat split; auto; try discriminate; try congruence.
      * repeat split; auto; try discriminate; try congruence.
    + destruct (data co !! (zone +:+ ".Source")) as [source|]; simpl.
      * destruct (negb (String.eqb source "") && isnumeric source); simpl.
        -- unfold py_int. destruct (NilZero.uint_of_string source); simpl;
             repeat split; auto; try discriminate; try congruence.
        -- repeat split; auto; try discriminate; try congruence.
      * repeat split; auto; try discriminate; try congruence.
  - destruct (data co !! (zone +:+ ".Source")) as [source|]; simpl.
    + destruct (negb (String.eqb source "") && isnumeric source); simpl.
      * unfold py_int. destruct (NilZero.uint_of_string source); simpl;
          repeat split; auto; try discriminate; try congruence.
      * repeat split; auto; try discriminate; try congruence.
    + repeat split; auto; try discriminate; try congruence.
Qed.



End UpdateFacts.

Section SourceFacts.
Import Coordinator MediaPlayer Entity.

Lemma str_not_empty (i : nat) : String.eqb (str i) "" = false.
Proof.
  pose proof (uint_of_str i) as H. destruct (str i); [discriminate|reflexivity].
Qed.

(** X16.  The source shown for a reachable receiver that is ON, when the
    update returns.  When the cache holds for Main.Source the decimal text of
    [i], the source becomes the name the entity's table holds for [i], and
    None if it holds none.  When the cache holds ASCII text that is not all
    decimal digits, or holds nothing, the source stays as it was. *)
Theorem source_report (co : coordinator) (self : entity) (t : trace) :
  reachable co = true -> power_state co = Some ON ->
  result_of (_handle_coordinator_update co self t) = Return tt ->
  (forall i : nat,
     data co !! "Main.Source" = Some (str i) ->
     _attr_source (state_of (_handle_coordinator_update co self t)) = _source_dict self !! i) /\
  (forall source : string,
     data co !! "Main.Source" = Some source -> ascii_text source = true ->
     isnumeric source = false ->
     _attr_source (state_of (_handle_coordinator_update co self t)) = _attr_source self) /\
  (data co !! "Main.Source" = None ->
   _attr_source (state_of (_handle_coordinator_update co self t)) = _attr_source self).
Proof.
  intros Hreach Hon. unfold reachable in Hreach.
  change "Main.Source" with (zone +:+ ".Source").
  unfold _handle_coordinator_update, bind, modify, get, ret, raise. cbn beta iota.
  rewrite Hreach, Hon. cbn beta iota.
  assert (forall (A : Type) (x : A) (self0 : entity) (e : exn),
            result_of (Raise e : result unit, self0, t) = Return tt -> x = x) as _ by auto.
  destruct (data co !! (zone +:+ ".Volume")) as [volume|]; cbn beta iota.
  - destruct (isnumeric (lstrip_minus volume)); cbn beta iota.
    + unfold py_float. destruct (NilZero.int_of_string volume) as [d|];
        unfold ret, raise; cbn beta iota.
      * intros _. split; [|split].
        -- intros i ->. rewrite str_not_empty, isnumeric_str. cbn [negb andb]. rewrite py_int_str. reflexivity.
        -- intros source -> _ ->. rewrite andb_false_r. reflexivity.
        -- intros ->. reflexivity.
      * discriminate.
    + intros _. split; [|split].
      * intros i ->. rewrite str_not_empty, isnumeric_str. cbn [negb andb]. rewrite py_int_str. reflexivity.
      * intros source -> _ ->. rewrite andb_false_r. reflexivity.
      * intros ->. reflexivity.
  - intros _. split; [|split].
    + intros i ->. rewrite str_not_empty, isnumeric_str. cbn [negb andb]. rewrite py_int_str. reflexivity.
    + intros source -> _ ->. rewrite andb_false_r. reflexivity.
    + intros ->. reflexivity.
Qed.

(** *** The reverse mapping *)

Lemma elem_of_items (d : gmap nat string) (i : nat) (name : string) :
  (i, name) ∈ items d <-> d !! i = Some name.
Proof.
  unfold items. rewrite merge_sort_Permutation. apply elem_of_map_to_list.
Qed.

Lemma reverse_fold_sound (l : list (nat * string)) :
  forall (acc : gmap string nat) (name : string) (i : nat),
    foldl (fun acc kv => <[kv.2 := kv.1]> acc) acc l !! name = Some i ->
    (i, name) ∈ l \/ acc !! name = Some i.
Proof.
  induction l as [|[k v] l IH]; intros acc name i H; cbn [foldl] in H; [auto|].
  destruct (IH _ _ _ H) as [Hin|Hacc].
  - left. apply elem_of_cons. auto.
  - cbn [fst snd] in Hacc. destruct (decide (v = name)) as [->|Hne].
    + rewrite lookup_insert_eq in Hacc. injection Hacc as ->. left. constructor.
    + rewrite lookup_insert_ne in Hacc by exact Hne. auto.
Qed.

Lemma reverse_fold_complete (l : list (nat * string)) :
  forall (acc : gmap string nat) (name : string),
    (is_Some (acc !! name) \/ exists i, (i, name) ∈ l) ->
    is_Some (foldl (fun acc kv => <[kv.2 := kv.1]> acc) acc l !! name).
Proof.
  induction l as [|[k v] l IH]; intros acc name H; cbn [foldl].
  - destruct H as [H|[i H]]; [exact H|]. inversion H.
  - apply IH. cbn [fst snd]. destruct (decide (v = name)) as [->|Hne].
    + left. rewrite lookup_insert_eq. eauto.
    + rewrite lookup_insert_ne by exact Hne.
      destruct H as [H|[i H]]; [auto|].
      apply elem_of_cons in H as [H|H]; [congruence|eauto].
Qed.

(** A name of the reverse mapping leads to a key that carries it, and every
    name of the table is in the reverse mapping. *)
Lemma reverse_mapping_spec (d : gmap nat string) (name : string) :
  (forall i, reverse_mapping d !! name = Some i -> d !! i = Some name) /\
  (forall i, d !! i = Some name -> is_Some (reverse_mapping d !! name)).
Proof.
  unfold reverse_mapping. split.
  - intros i H. apply reverse_fold_sound in H as [H|H].
    + apply elem_of_items. exact H.
    + rewrite lookup_empty in H. discriminate.
  - intros i H. apply reverse_fold_complete. right. exists i.
    apply elem_of_items. exact H.
Qed.

End SourceFacts.

Section CommandFacts.
Import Coordinator MediaPlayer Entity.
Variable E : env.



(** X17.  [async_select_source] for a source given as ASCII text, on an
    entity whose reverse mapping is the one [__init__] built.  Either it
    hands "Main.Source", "=", [str i] to the coordinator's
    [async_send_command] and does nothing else, where [i] is a key of the
    source table: one that carries the name [source] or, when no key carries
    it, the key that [source] spells in decimal digits.  Or [source] is
    neither a name of the table nor the digits of one of its keys, and it
    raises [HomeAssistantError] with nothing sent and nothing changed. *)
Theorem select_source_outcome (self : entity) (source : string) (co : coordinator)
    (t : trace) :
  _reverse_mapping self = reverse_mapping (_source_dict self) ->
  ascii_text source = true ->
  (exists i : nat,
     is_Some (_source_dict self !! i) /\
     (_source_dict self !! i = Some source \/
      (forall j : nat, _source_dict self !! j <> Some source) /\
      result_of (py_int source co t) = Return i) /\
     async_select_source E self source co t
     = (async_send_command E "Main.Source" "=" (str i) ;; ret tt) co t) \/
  ((forall i : nat, _source_dict self !! i <> Some source) /\
   (forall i : nat, result_of (py_int source co t) = Return i -> _source_dict self !! i = None) /\
   async_select_source E self source co t = (Raise OtherException, co, t)).
Proof.
  intros Hrev _. destruct (reverse_mapping_spec (_source_dict self) source) as [Hsound Hcomplete].
  unfold async_select_source. rewrite Hrev.
  destruct (reverse_mapping (_source_dict self) !! source) as [i|] eqn:Hname.
  - left. exists i. pose proof (Hsound i eq_refl) as Hi.
    split; [rewrite Hi; eauto|]. split; [left; exact Hi|]. reflexivity.
  - assert (forall i : nat, _source_dict self !! i <> Some source) as Hnone.
    { intros i Hi. destruct (Hcomplete i Hi) as [j Hj]. discriminate. }
    unfold isnumeric, py_int.
    destruct (NilZero.uint_of_string source) as [d|] eqn:Hd.
    + unfold bind, ret, raise. cbn beta iota.
      destruct (bool_decide (is_Some (_source_dict self !! Nat.of_uint d))) eqn:Hin.
      * left. exists (Nat.of_uint d). apply bool_decide_eq_true in Hin.
        split; [exact Hin|]. split; [right; split; [exact Hnone|reflexivity]|].
        reflexivity.
      * right. apply bool_decide_eq_false in Hin.
        split; [exact Hnone|]. split; [|reflexivity].
        intros i Hi. injection Hi as <-.
        destruct (_source_dict self !! Nat.of_uint d) eqn:Hl; [|reflexivity].
        exfalso. apply Hin. eauto.
    + right. split; [exact Hnone|]. split; [|reflexivity].
      intros i Hi. discriminate.
Qed.



End CommandFacts.

(** ** Setting up the coordinator *)

Section SetupFacts.
Import Coordinator.
Variable E : env.

Lemma on_coordinator_run {A : Type} (m : prog coordinator A) (co : coordinator)
    (idn : identity) (t : trace) :
  on_coordinator m (co, idn) t
  = (result_of (m co t), (state_of (m co t), idn), trace_of (m co t)).
Proof.
  unfold on_coordinator. simpl. destruct (m co t) as [[r co'] t']. reflexivity.
Qed.

Lemma on_coordinator_return {A B : Type} (m : prog coordinator A)
    (k : A -> prog (coordinator * identity) B) (co co' : coordinator) (idn : identity)
    (t t' : trace) (a : A) :
  m co t = (Return a, co', t') ->
  bind (on_coordinator m) k (co, idn) t = k a (co', idn) t'.
Proof. intros H. unfold bind, on_coordinator. simpl. rewrite H. reflexivity. Qed.

Lemma on_coordinator_raise {A B : Type} (m : prog coordinator A)
    (k : A -> prog (coordinator * identity) B) (co co' : coordinator) (idn : identity)
    (t t' : trace) (e : exn) :
  m co t = (Raise e, co', t') ->
  bind (on_coordinator m) k (co, idn) t = (Raise e, (co', idn), t').
Proof. intros H. unfold bind, on_coordinator. simpl. rewrite H. reflexivity. Qed.

Lemma with_client_run {A : Type} (m : prog Client.client A) (co : coordinator)
    (c c' : Client.client) (t t' : trace) (r : result A) :
  client co = Some c -> m c t = (r, c', t') ->
  with_client m co t = (r, set_client (Some c') co, t').
Proof. intros Hc H. unfold with_client. rewrite Hc, H. reflexivity. Qed.

(** X19.  The coordinator's [connect] never raises a client error; it
    returns False instead.  Without a client it returns False at once.  When
    the transport cannot be opened (an OS error on TCP, any [Exception] on a
    serial port) it returns False after that one attempt, with coordinator and
    client as they were.  When the transport opens and the first query cannot
    be written, it returns False and leaves the client marked connected, with
    its listen task running and its streams open: nothing is closed. *)
Theorem connect_failure (unique_id : string) (serial_port : option string)
    (co : coordinator) (idn : identity) (t : trace) :
  (forall e : exn,
     result_of (connect E unique_id serial_port (co, idn) t) = Raise e ->
     is_NADClientError e = false) /\
  (client co = None ->
   connect E unique_id serial_port (co, idn) t = (Return false, (co, idn), t)) /\
  (forall (c : Client.client) (e : exn),
     client co = Some c -> Client._connected c = false ->
     open_outcome E t = Some e ->
     match Client.kind c with Client.TCP => is_OSError e | Client.Serial => is_Exception e end
     = true ->
     connect E unique_id serial_port (co, idn) t
     = (Return false, (co, idn), t ++ [EvOpen (Some e)])) /\
  (forall (c : Client.client) (e : exn),
     client co = Some c -> Client._connected c = false ->
     open_outcome E t = None ->
     write_outcome E (trace_of (Client.connect E c t)) (query "Main.Model") = Some e ->
     is_Exception e = true ->
     exists c' : Client.client,
       connect E unique_id serial_port (co, idn) t
       = (Return false, (set_client (Some c') co, idn),
          trace_of (Client.connect E c t) ++ [EvWrite (query "Main.Model") (Some e)]) /\
       Client._connected c' = true /\ Client._listen_task c' = Some Client.Running /\
       is_Some (Client._writer c') /\
       opens (trace_of (Client.connect E c t)) = S (opens t)).
Proof.
  split; [|split; [|split]].
  - intros e. unfold connect, bind at 1, get. cbn [fst].
    destruct (client co); [|discriminate].
    unfold try_except.
    match goal with |- context [match ?m (co, idn) t with _ => _ end] =>
      destruct (m (co, idn) t) as [[[u|e'] s'] t'] end; [discriminate|].
    destruct (is_NADClientError e') eqn:He; [discriminate|].
    simpl. intros Heq. injection Heq as <-. exact He.
  - intros Hc. unfold connect, bind, get. cbn [fst]. rewrite Hc. reflexivity.
  - intros c e Hc Hconn Hopen Hkind.
    unfold connect, bind at 1, get. cbn [fst]. rewrite Hc.
    unfold try_except.
    assert (Client.connect E c t
            = (Raise (NADClientError match Client.kind c with
                                     | Client.TCP => "Connection failed"
                                     | Client.Serial => "Serial connection failed"
                                     end), c, t ++ [EvOpen (Some e)])) as Hfail.
    { destruct c as [k conn cb lt buf en rec rd wr]. simpl in *. subst conn.
      unfold Client.connect, Client._connect_impl, Client.transport_open, try_except,
        bind, get, modify, ret, raise, emit. simpl. rewrite Hopen.
      destruct k; simpl in *; rewrite Hkind; reflexivity. }
    erewrite on_coordinator_raise; [|eapply with_client_run; [exact Hc|exact Hfail]].
    simpl. rewrite (set_client_same co c Hc). reflexivity.
  - intros c e Hc Hconn Hopen Hwrite He.
    assert (exists c1,
              Client.connect E c t = (Return tt, c1, trace_of (Client.connect E c t)) /\
              Client._connected c1 = true /\ Client._listen_task c1 = Some Client.Running /\
              is_Some (Client._writer c1) /\
              opens (trace_of (Client.connect E c t)) = S (opens t)) as (c1 & Hrun & Hc1).
    { destruct c as [k conn cb lt buf en rec rd wr]. simpl in *. subst conn.
      unfold Client.connect, Client._connect_impl, Client.create_listen_task,
        Client.transport_open, try_except, bind, get, modify, ret, raise, emit.
      simpl. rewrite Hopen. simpl. eexists. split; [reflexivity|]. simpl.
      rewrite <- !app_assoc, opens_app. simpl. repeat split; eauto. lia. }
    set (t1 := trace_of (Client.connect E c t)) in *.
    exists (Client.set_reconnect_callback (Some _handle_reconnect) c1).
    split; [|exact Hc1].
    destruct Hc1 as (Hconn1 & _ & Hwr1 & _).
    unfold connect, bind at 1, get. cbn [fst]. rewrite Hc.
    unfold try_except.
    erewrite on_coordinator_return; [|eapply with_client_run; [exact Hc|exact Hrun]].
    erewrite on_coordinator_return;
      [|eapply with_client_run; [reflexivity|unfold modify; reflexivity]].
    erewrite on_coordinator_raise;
      [|eapply with_client_run;
        [reflexivity|apply (client_send_fails E "Main.Model" "?" "" _ t1 e); simpl; auto]].
    cbn. reflexivity.
Qed.




Section Answering.
Variable rx : gmap string string.
Variable lat : nat.
Variable d0 : gmap string string.
Hypothesis Hopen : forall t : trace, open_outcome E t = None.
Hypothesis Hwrite : forall (t : trace) (d : string), write_outcome E t d = None.
Hypothesis Hreply :
  forall (t : trace) (key : string),
    arrivals E (t ++ [EvWrite (query key) None]) = reply rx lat key.
Hypothesis Hlat : lat <= 100.

(** The settle delay after a query. *)
Lemma settle (ms : nat) (key : string) (co : coordinator) (t : trace) :
  100 <= ms -> tracks rx d0 (data co) ->
  exists co' t',
    sleep E ms co (t ++ [EvWrite (query key) None]) = (Return tt, co', t') /\
    client co' = client co /\ sources co' = sources co /\ tracks rx d0 (data co') /\
    data co' !! key = (rx ∪ d0) !! key /\
    writes t' = writes t ++ [(query key, None)].
Proof.
  intros Hms Hd.
  destruct (sleep_obs E ms co (t ++ [EvWrite (query key) None]))
    as (co' & t' & Hrun & Hc' & Hs' & Hd' & Hw' & _).
  exists co', t'. rewrite Hrun, Hc', Hs', Hw', Hd', Hreply, writes_app.
  split; [reflexivity|]. split; [reflexivity|]. split; [reflexivity|].
  split; [|split; [|reflexivity]].
  - unfold reply. destruct (rx !! key) as [v|] eqn:Hrx; cbn [delivered store]; [|exact Hd].
    assert ((lat <=? ms) = true) as -> by (apply Nat.leb_le; lia).
    cbn [delivered store]. intros k. destruct (decide (key = k)) as [<-|Hne].
    + right. rewrite lookup_insert_eq. symmetry. apply lookup_union_Some_l. exact Hrx.
    + rewrite lookup_insert_ne by exact Hne. apply Hd.
  - unfold reply. destruct (rx !! key) as [v|] eqn:Hrx; cbn [delivered store].
    + assert ((lat <=? ms) = true) as -> by (apply Nat.leb_le; lia).
      cbn [delivered store]. rewrite lookup_insert_eq. symmetry.
      apply lookup_union_Some_l. exact Hrx.
    + assert ((rx ∪ d0) !! key = d0 !! key) as Hk by (apply lookup_union_r; exact Hrx).
      destruct (Hd key) as [H|H]; congruence.
Qed.




End Answering.

End SetupFacts.


(** ** One reconnect cycle *)

Section ReconnectFacts.
Import Client.
Variable E : env.

(** X21.  [_try_reconnect] on a client whose guard flag is clear.  It logs
    the attempt, cancels a running listen task, and opens the transport.  If
    that completes, the client holds the new streams, is marked connected and
    has a new listen task, and the reconnect callback, if one is set, is
    called once; an [Exception] the callback raises is swallowed, so the
    result is True and the flag is clear again, while any other exception of
    the callback leaves with the flag set.  If opening raises an [Exception],
    the result is False: the client is marked disconnected, no listen task is
    running, the flag is clear, the callback was not called, and the old
    writer is still referenced. *)
Theorem try_reconnect_outcome (c : client) (t : trace) :
  _is_reconnecting c = false ->
  let cancel := match _listen_task c with Some Running => [EvCancelListen] | _ => [] end in
  let before := t ++ [EvLog "Attempting to reconnect to NAD receiver..."] ++ cancel in
  match open_outcome E before with
  | None =>
      let after :=
        before ++ [EvOpen None;
                   EvLog match kind c with
                         | TCP => "Connected to NAD receiver at %s:%s"
                         | Serial => "Connected to NAD receiver on %s at %d baud"
                         end;
                   EvLog "Successfully reconnected to NAD receiver";
                   EvStartListen]
               ++ match _reconnect_callback c with
                  | Some cb => [EvReconnectCallback cb]
                  | None => []
                  end in
      exists c' : client,
        trace_of (_try_reconnect E c t) = after /\
        state_of (_try_reconnect E c t) = c' /\
        _connected c' = true /\ _listen_task c' = Some Running /\
        _writer c' = Some (Handle (length before)) /\
        _reader c' = Some (Handle (length before)) /\
        match _reconnect_callback c with
        | Some (Some e) =>
            if is_Exception e
            then result_of (_try_reconnect E c t) = Return true /\ _is_reconnecting c' = false
            else result_of (_try_reconnect E c t) = Raise e /\ _is_reconnecting c' = true
        | _ => result_of (_try_reconnect E c t) = Return true /\ _is_reconnecting c' = false
        end
  | Some e =>
      is_Exception e = true ->
      exists c' : client,
        _try_reconnect E c t = (Return false, c', before ++ [EvOpen (Some e)]) /\
        _connected c' = false /\ _is_reconnecting c' = false /\
        _listen_task c' <> Some Running /\
        _writer c' = _writer c /\ _reconnect_callback c' = _reconnect_callback c
  end.
Proof.
  destruct c as [k conn cb lt buf en rec rd wr]. cbn [_is_reconnecting _listen_task kind
    _reconnect_callback _writer]. intros ->. cbv zeta.
  unfold _try_reconnect, _connect_impl, call_reconnect_callback, cancel_listen_task,
    create_listen_task, transport_open, try_except, bind, ret, raise, get, modify, emit.
  cbn beta iota. cbn [_is_reconnecting _listen_task kind _reconnect_callback _writer
    set_is_reconnecting set_listen_task set_connected set_streams].
  destruct lt as [[|]|]; cbn beta iota;
    rewrite <- ?app_assoc; cbn [app];
    match goal with |- context [open_outcome E ?x] =>
      destruct (open_outcome E x) as [e|] eqn:Hopen end;
    cbn beta iota.
  all: try (intros He; rewrite He; cbn; eexists; rewrite <- ?app_assoc; cbn;
            split; [reflexivity|]; cbn; repeat split; auto; try discriminate; fail).
  all: destruct cb as [[e'|]|]; cbn; try destruct (is_Exception e') eqn:He'; cbn;
    rewrite ?He'; cbn; rewrite <- ?app_assoc; cbn; eexists; repeat split; eauto;
    rewrite ?length_app; cbn; rewrite ?length_app; reflexivity.
Qed.

End ReconnectFacts.

(** ** From the wire to the entity *)

Section ReceiveFacts.
Import Coordinator MediaPlayer Entity.







End ReceiveFacts.

(** ** Migrating entity ids *)

Section MigrationFacts.
Import Coordinator Entity.

Lemma replace_once (old new rest : string) :
  old <> "" -> contains old rest = false ->
  replace old new (old +:+ rest) = new +:+ rest.
Proof.
  intros Hold Hrest. unfold replace.
  destruct (length_app_pos "" old Hold) as [n Hn]. rewrite app_nil_l in Hn.
  rewrite string_app_length, Hn. cbn [Nat.add replace_from].
  assert (split_once old (old +:+ rest) = Some ("", rest)) as ->.
  { destruct (old +:+ rest) eqn:Heq; cbn [split_once]; rewrite <- Heq, strip_prefix_app;
      reflexivity. }
  rewrite app_nil_l.
  destruct (n + String.length rest) as [|fuel]; [reflexivity|].
  cbn [replace_from]. rewrite (contains_false _ _ Hrest). reflexivity.
Qed.

(** X23.  Migration of entity ids on a serial connection.  A unique id made
    of the port, "-" and a rest that does not contain the port followed by
    "-" becomes the id of the config entry, "-" and the rest; for the rest
    "mediaplayer-main" this is the id [NAD.__init__] assigns today.  On a
    Telnet connection, and for an id that does not start with the port
    followed by "-", nothing is migrated. *)
Theorem migrate_entity_id (port config_entry_id rest : string) :
  contains (port +:+ "-") rest = false ->
  _async_migrate_entity_entry (Some port) config_entry_id (port +:+ "-" +:+ rest)
  = Some (config_entry_id +:+ "-" +:+ rest) /\
  (rest = "mediaplayer-main" ->
   _async_migrate_entity_entry (Some port) config_entry_id (port +:+ "-" +:+ rest)
   = Some (_attr_unique_id config_entry_id)) /\
  (forall unique_id : string,
     _async_migrate_entity_entry None config_entry_id unique_id = None) /\
  (forall unique_id : string,
     strip_prefix (port +:+ "-") unique_id = None ->
     _async_migrate_entity_entry (Some port) config_entry_id unique_id = None).
Proof.
  intros Hrest.
  assert (_async_migrate_entity_entry (Some port) config_entry_id (port +:+ "-" +:+ rest)
          = Some (config_entry_id +:+ "-" +:+ rest)) as Hrun.
  { unfold _async_migrate_entity_entry.
    rewrite <- (string_app_assoc port "-" rest), strip_prefix_app.
    rewrite replace_once; [|destruct port; discriminate|exact Hrest].
    rewrite string_app_assoc. reflexivity. }
  split; [exact Hrun|]. split; [|split].
  - intros ->. rewrite Hrun. reflexivity.
  - reflexivity.
  - intros unique_id Hno. unfold _async_migrate_entity_entry. rewrite Hno. reflexivity.
Qed.

End MigrationFacts.

(** ** The further properties at work *)

Lemma parse_message_dispatch_witness :
  ascii_text " Main.Volume=-50 " = true /\
  Client._parse_message (Some record_message) " Main.Volume=-50 " [] []
  = (Return tt, [("Main.Volume", "-50")], []).
Proof.
  split; [reflexivity|].
  exact (proj1 (proj2 (parse_message_dispatch record_message " Main.Volume=-50 " [] [] eq_refl))
           "Main.Volume" "-50" eq_refl eq_refl).
Defined.

Lemma two_chunks_one_message_witness :
  exists (lines : list string) (c' : Client.client),
    Client.feed ["Main.Vol"; "ume=-50" +:+ CRLF] (Client.new_client Client.TCP) []
    = (Return lines, c', []) /\
    Client._buffer c' = "" /\
    messages lines = [("Main.Volume", "-50")].
Proof.
  apply (two_chunks_one_message "Main.Volume" "-50" "Main.Vol" ("ume=-50" +:+ CRLF)
           (Client.new_client Client.TCP) []); reflexivity.
Defined.

Lemma one_listen_task_witness :
  listen_settled (Client.new_client Client.TCP) /\
  one_listen_task_step (Client.new_client Client.TCP) []
    (state_of (Client.connect quiet (Client.new_client Client.TCP) []))
    (trace_of (Client.connect quiet (Client.new_client Client.TCP) [])).
Proof.
  assert (listen_settled (Client.new_client Client.TCP)) as H.
  { unfold listen_settled. simpl. intros _. discriminate. }
  split; [exact H|].
  exact (proj1 (proj2 (one_listen_task quiet (Client.new_client Client.TCP) [] H))).
Defined.

Lemma reconnect_stays_disabled_witness :
  Client._connected connected_client = true /\
  Client._reconnect_enabled
    (state_of (Client.connect quiet (state_of (Client.disconnect quiet connected_client []))
                 (trace_of (Client.disconnect quiet connected_client [])))) = false.
Proof.
  split; [reflexivity|].
  refine (proj1 (proj2 (reconnect_stays_disabled quiet connected_client
            (state_of (Client.disconnect quiet connected_client []))
            (state_of (Client.connect quiet (state_of (Client.disconnect quiet connected_client []))
                         (trace_of (Client.disconnect quiet connected_client []))))
            []
            (trace_of (Client.disconnect quiet connected_client []))
            (trace_of (Client.connect quiet (state_of (Client.disconnect quiet connected_client []))
                         (trace_of (Client.disconnect quiet connected_client []))))
            "Main.Power" "?" "" _ _ _))); reflexivity.
Defined.

Lemma partial_line_is_kept_witness :
  exists c' : Client.client,
    Client.feed ["Main.Vo"; "lume=-"] (Client.new_client Client.TCP) [] = (Return [], c', []) /\
    Client._buffer c' = "Main.Volume=-".
Proof.
  apply (partial_line_is_kept ["Main.Vo"; "lume=-"] (Client.new_client Client.TCP) []);
    [reflexivity|reflexivity|].
  repeat constructor.
Defined.

Lemma disconnect_keeps_pending_notification_witness :
  armed 50 (Coordinator._handle_message "Main.Volume" "-50" fresh_coordinator) /\
  exists (res : result unit) (co' : Coordinator.coordinator) (t' : trace),
    Coordinator.disconnect quiet
      (Coordinator._handle_message "Main.Volume" "-50" fresh_coordinator) []
    = (res, co', t') /\
    armed 50 co'.
Proof.
  assert (armed 50 (Coordinator._handle_message "Main.Volume" "-50" fresh_coordinator)) as H.
  { exists []. split; [reflexivity|]. split; [constructor|reflexivity]. }
  split; [exact H|].
  destruct (disconnect_keeps_pending_notification quiet
              (Coordinator._handle_message "Main.Volume" "-50" fresh_coordinator) [] 50 H)
    as (res & co' & t' & Hrun & Harmed & _).
  exists res, co', t'. split; assumption.
Defined.

Lemma calc_db_in_range_witness :
  (-92 <= MediaPlayer.calc_db (MediaPlayer.mkNAD (-92) (-20)) (1 # 4))%Z /\
  (MediaPlayer.calc_db (MediaPlayer.mkNAD (-92) (-20)) (1 # 4)
   <= MediaPlayer.calc_db (MediaPlayer.mkNAD (-92) (-20)) (1 # 2))%Z /\
  (MediaPlayer.calc_db (MediaPlayer.mkNAD (-92) (-20)) (1 # 2) <= -20)%Z.
Proof.
  destruct (calc_db_in_range (MediaPlayer.mkNAD (-92) (-20)) (1 # 4) (1 # 2))
    as (H1 & H2 & H3 & _); [simpl; lia|discriminate|discriminate|discriminate|].
  auto.
Defined.


Lemma calc_volume_not_clamped_witness :
  (0 < MediaPlayer.calc_volume (MediaPlayer.mkNAD (-92) (-20)) (inject_Z (-100)))%Q.
Proof.
  apply (calc_volume_not_clamped (MediaPlayer.mkNAD (-92) (-20)) (inject_Z (-100)));
    [simpl; lia|reflexivity].
Defined.


Lemma source_report_witness :
  result_of (Entity._handle_coordinator_update playing_coordinator sample_entity [])
  = Return tt /\
  Entity._attr_source
    (state_of (Entity._handle_coordinator_update playing_coordinator sample_entity []))
  = Some "CD".
Proof.
  split; [reflexivity|].
  exact (proj1 (source_report playing_coordinator sample_entity [] eq_refl eq_refl eq_refl)
           3 eq_refl).
Defined.

Lemma select_source_outcome_witness :
  Entity._reverse_mapping sample_entity
  = Entity.reverse_mapping (Entity._source_dict sample_entity) /\
  Entity.async_select_source quiet sample_entity "Tuner" playing_coordinator []
  = (Raise OtherException, playing_coordinator, []).
Proof.
  split; [reflexivity|].
  destruct (select_source_outcome quiet sample_entity "Tuner" playing_coordinator []
              eq_refl eq_refl) as [(i & _ & _ & Hrun)|(_ & _ & Hrun)]; [|exact Hrun].
  reflexivity.
Defined.


Lemma try_reconnect_outcome_witness :
  Client._is_reconnecting peer_closed_client = false /\
  result_of (Client._try_reconnect quiet peer_closed_client []) = Return true.
Proof.
  split; [reflexivity|].
  pose proof (try_reconnect_outcome quiet peer_closed_client [] eq_refl) as H.
  cbv zeta in H. cbn in H. destruct H as (c' & _ & _ & _ & _ & _ & _ & Hres & _).
  exact Hres.
Defined.


Lemma migrate_entity_id_witness :
  Coordinator._async_migrate_entity_entry (Some "/dev/ttyUSB0") "0123abcd"
    "/dev/ttyUSB0-mediaplayer-main"
  = Some "0123abcd-mediaplayer-main".
Proof.
  exact (proj1 (migrate_entity_id "/dev/ttyUSB0" "0123abcd" "mediaplayer-main" eq_refl)).
Defined.
